(** * purescript_rc.h: the reference-counted boxed value of purescript-native

    A shallow embedding of [src/runtime/purescript_rc.h].

    - [boxed] is a [std::shared_ptr<void>]: either null or the address of a
      payload cell of the store.  A cell carries the dynamic type of the object
      that [std::make_shared<T>] created there; [static_cast<T*>(get())]
      followed by a dereference is defined only when the cell has that type,
      and is undefined behaviour otherwise.
    - Operations thread the store through a small state monad whose outcomes
      are a result, a thrown C++ exception, or undefined behaviour.
    - [#if !defined(NDEBUG)] is a [build] parameter of the operations it guards.
    - The store only grows: reference counts and deallocation are left out, a
      freed cell being unreachable from any live [boxed]. *)

From Stdlib Require Import ZArith String Lia.
From stdpp Require Import base option list gmap strings.

(** ** Native scalar types *)

Module Native.

(** [int] is 32 bits, [long], [unsigned long], [std::size_t] and
    [long long] are 64 bits (LP64). All are carried by [Z]. *)
Definition INT_MIN : Z := (- 2 ^ 31)%Z.
Definition INT_MAX : Z := (2 ^ 31 - 1)%Z.

Definition int_range (n : Z) : Prop := (INT_MIN <= n <= INT_MAX)%Z.
Definition long_range (n : Z) : Prop := (- 2 ^ 63 <= n < 2 ^ 63)%Z.
Definition ulong_range (n : Z) : Prop := (0 <= n < 2 ^ 64)%Z.
Definition size_t_range (n : Z) : Prop := (0 <= n < 2 ^ 64)%Z.
Definition long_long_range (n : Z) : Prop := (- 2 ^ 63 <= n < 2 ^ 63)%Z.

Definition in_int_range (n : Z) : bool := ((INT_MIN <=? n) && (n <=? INT_MAX))%Z.

(** [static_cast<int>(n)] from a wider integer type: the unique [int]
    congruent to [n] modulo 2^32. *)
Definition static_cast_int (n : Z) : Z := ((n + 2 ^ 31) mod 2 ^ 32 - 2 ^ 31)%Z.

(** Conversion of [std::size_t] to [long long] by a [return] statement. *)
Definition to_long_long (n : Z) : Z := ((n + 2 ^ 63) mod 2 ^ 64 - 2 ^ 63)%Z.

(** Conversion of an [int] argument to the unsigned [size_type] parameter of
    [std::deque::at] and [std::deque::operator[]]. *)
Definition to_size_type (i : Z) : Z := (i mod 2 ^ 64)%Z.

(** A 32-bit pattern read as a two's complement number. *)
Definition reinterpret_signed32 (u : Z) : Z :=
  (if u <? 2 ^ 31 then u else u - 2 ^ 32)%Z.

(** [double] is carried by its IEEE-754 binary64 bit pattern; the header
    only stores and copies doubles. *)
Definition double := Z.

(** The characters a [const char s[]] argument denotes: those before the
    first NUL. *)
Fixpoint c_str (s : string) : string :=
  match s with
  | EmptyString => EmptyString
  | String c s' => if Ascii.eqb c Ascii.zero then EmptyString else String c (c_str s')
  end.

End Native.
Import Native.

(** ** Outcomes *)

(** The exceptions the header and [std::deque::at] throw. *)
Inductive exn :=
| runtime_error (what : string)
| out_of_range.

(** What running an operation yields: a value, a C++ exception that aborts
    the operation, or undefined behaviour.  The header catches nothing, so no
    store is kept for an exception. *)
Inductive outcome (A : Type) :=
| Ok (a : A)
| Throw (e : exn)
| UB.
Arguments Ok {A} a.
Arguments Throw {A} e.
Arguments UB {A}.

(** Build configuration: [Debug] when [NDEBUG] is not defined. *)
Inductive build := Debug | Release.

Definition debug (m : build) : bool :=
  match m with Debug => true | Release => false end.

(** ** Values and the store *)

(** Addresses of store cells. *)
Abbreviation addr := nat.

(** [class boxed : public std::shared_ptr<void>]: the stored pointer. *)
Abbreviation boxed := (option addr).

(** [constexpr auto undefined = nullptr]. *)
Definition undefined : boxed := None.

(** [using array_t = std::deque<boxed>]. *)
Abbreviation array_t := (list boxed).

(** Modelled from the spec: [string_literal_dict_t<boxed>] is declared in
    [string_literal_dict.h], which is not part of the sources at hand.  The
    spec describes it as a string-keyed mapping of Values with unique keys. *)
Abbreviation dict_t := (gmap string boxed).

(** [class boxed_r : private std::shared_ptr<void>]: the pointer to the slot. *)
Record boxed_r := mk_boxed_r { slot : option addr }.

(** The payload types a cell can have. *)
Inductive kind :=
| KInt | KDouble | KBool | KString | KArray | KDict | KFn | KEffFn | KBoxed.

Global Instance kind_eq_dec : EqDecision kind.
Proof. solve_decision. Defined.

(** Modelled from the spec: [string_literal_dict_t::operator[]] const, of
    [string_literal_dict.h].  "const form requires the key to exist": it
    returns the entry at [key]; an absent key is a contract violation. *)
Definition dict_index_const (m : dict_t) (key : string) : outcome boxed :=
  match m !! key with
  | Some v => Ok v
  | None => UB
  end.

(** Modelled from the spec: [string_literal_dict_t::operator[]] non-const, of
    [string_literal_dict.h].  "mutable form inserts a default/empty entry if
    absent (map semantics)": the mapping afterwards, in which [key] is bound. *)
Definition dict_index_mut (m : dict_t) (key : string) : dict_t :=
  match m !! key with
  | Some _ => m
  | None => <[key := undefined]> m
  end.

(** [std::deque::at]: bounds-checked, throws [std::out_of_range]. *)
Definition deque_at (l : array_t) (n : Z) : outcome boxed :=
  match l !! Z.to_nat n with
  | Some v => Ok v
  | None => Throw out_of_range
  end.

(** [std::deque::operator[]]: unchecked. *)
Definition deque_subscript (l : array_t) (n : Z) : outcome boxed :=
  match l !! Z.to_nat n with
  | Some v => Ok v
  | None => UB
  end.

(** ** The monad of operations *)

(** Operations on a store of type [S]. *)
Definition St (S A : Type) : Type := S -> outcome (A * S).

Definition ret {S A} (a : A) : St S A := fun h => Ok (a, h).

Definition bind {S A B} (m : St S A) (k : A -> St S B) : St S B :=
  fun h =>
    match m h with
    | Ok (a, h') => k a h'
    | Throw e => Throw e
    | UB => UB
    end.

Definition throw {S A} (e : exn) : St S A := fun _ => Throw e.

Definition undefined_behaviour {S A} : St S A := fun _ => UB.

Definition lift {S A} (o : outcome A) : St S A :=
  fun h =>
    match o with
    | Ok a => Ok (a, h)
    | Throw e => Throw e
    | UB => UB
    end.

(** The result of an operation, the final store dropped. *)
Definition eval {S A} (m : St S A) (h : S) : outcome A :=
  match m h with
  | Ok (a, _) => Ok a
  | Throw e => Throw e
  | UB => UB
  end.

Declare Scope rt_scope.
Delimit Scope rt_scope with rt.
Notation "x <- m ;; k" := (bind m (fun x => k))
  (at level 100, m at next level, right associativity) : rt_scope.
Notation "m ;; k" := (bind m (fun _ => k))
  (at level 100, right associativity) : rt_scope.
Open Scope rt_scope.

(** The object a store cell holds.  [closure] and [thunk] are the native
    callables wrapped by [fn_t = std::function<boxed(const boxed&)>] and
    [eff_fn_t = std::function<boxed(void)>]: code of the generated program,
    not of the header.  [PBoxed] is the slot of a [boxed_r], created by
    [std::make_shared<boxed>()]. *)
Inductive payload (closure thunk : Type) :=
| PInt (n : Z)
| PDouble (d : double)
| PBool (b : bool)
| PString (s : string)
| PArray (l : array_t)
| PDict (m : dict_t)
| PFn (f : closure)
| PEffFn (t : thunk)
| PBoxed (b : boxed).
Arguments PInt {closure thunk} n.
Arguments PDouble {closure thunk} d.
Arguments PBool {closure thunk} b.
Arguments PString {closure thunk} s.
Arguments PArray {closure thunk} l.
Arguments PDict {closure thunk} m.
Arguments PFn {closure thunk} f.
Arguments PEffFn {closure thunk} t.
Arguments PBoxed {closure thunk} b.

(** How the callables run: on the store, like every operation. *)
Class Callables (closure thunk : Type) := {
  apply_fn : closure -> boxed -> St (list (payload closure thunk)) boxed;
  apply_eff : thunk -> St (list (payload closure thunk)) boxed
}.

Section Runtime.

Context {closure thunk : Type}.

Local Abbreviation heap := (list (payload closure thunk)).
Local Abbreviation M := (St heap).

Definition kind_of (p : payload closure thunk) : kind :=
  match p with
  | PInt _ => KInt
  | PDouble _ => KDouble
  | PBool _ => KBool
  | PString _ => KString
  | PArray _ => KArray
  | PDict _ => KDict
  | PFn _ => KFn
  | PEffFn _ => KEffFn
  | PBoxed _ => KBoxed
  end.

(** The C++ type [T] named by a kind. *)
Definition ctype (k : kind) : Type :=
  match k with
  | KInt => Z
  | KDouble => double
  | KBool => bool
  | KString => string
  | KArray => array_t
  | KDict => dict_t
  | KFn => closure
  | KEffFn => thunk
  | KBoxed => boxed
  end.

Definition inject (k : kind) : ctype k -> payload closure thunk :=
  match k with
  | KInt => PInt
  | KDouble => PDouble
  | KBool => PBool
  | KString => PString
  | KArray => PArray
  | KDict => PDict
  | KFn => PFn
  | KEffFn => PEffFn
  | KBoxed => PBoxed
  end.

(** [*static_cast<T*>(p)] for a pointer [p] to the object [o]: defined only
    when [o] is a [T]. *)
Definition project (k : kind) (o : payload closure thunk) : option (ctype k) :=
  match k, o with
  | KInt, PInt n => Some n
  | KDouble, PDouble d => Some d
  | KBool, PBool b => Some b
  | KString, PString s => Some s
  | KArray, PArray l => Some l
  | KDict, PDict m => Some m
  | KFn, PFn f => Some f
  | KEffFn, PEffFn t => Some t
  | KBoxed, PBoxed b => Some b
  | _, _ => None
  end.

(** ** Allocation and dereference *)

(** [std::make_shared<T>(v)]: a new cell, and the pointer to it. *)
Definition make_shared (o : payload closure thunk) : M boxed :=
  fun h => Ok (Some (length h), h ++ [o]).

(** [*p.get()] for a shared pointer [p]: the object pointed to. Null and
    dangling pointers have none. *)
Definition get (p : option addr) : M (payload closure thunk) :=
  fun h =>
    match p with
    | Some a =>
        match h !! a with
        | Some o => Ok (o, h)
        | None => UB
        end
    | None => UB
    end.

(** Overwrite the object of an existing cell. *)
Definition put (p : option addr) (o : payload closure thunk) : M unit :=
  fun h =>
    match p with
    | Some a => if decide (a < length h) then Ok (tt, <[a := o]> h) else UB
    | None => UB
    end.

(** [*static_cast<T*>(b.get())]. *)
Definition deref (k : kind) (p : option addr) : M (ctype k) :=
  o <- get p ;;
  match project k o with
  | Some v => ret v
  | None => undefined_behaviour
  end.

Context {C : Callables closure thunk}.

(** ** [class boxed]: constructors *)

(** [boxed() noexcept] and [boxed(const std::nullptr_t) noexcept]. *)
Definition boxed_null : M boxed := ret None.

(** [boxed(const int n)]. *)
Definition boxed_int (n : Z) : M boxed := make_shared (PInt n).

(** [boxed(const long n)]: the member initialiser converts and allocates,
    then the body of a debug build checks the range. *)
Definition boxed_long (mode : build) (n : Z) : M boxed :=
  b <- make_shared (PInt (static_cast_int n)) ;;
  if debug mode && ((n <? INT_MIN) || (n >? INT_MAX))%Z
  then throw (runtime_error "integer out of range")
  else ret b.

(** [boxed(const unsigned long n)]. *)
Definition boxed_ulong (mode : build) (n : Z) : M boxed :=
  b <- make_shared (PInt (static_cast_int n)) ;;
  if debug mode && (n >? INT_MAX)%Z
  then throw (runtime_error "integer out of range")
  else ret b.

(** [boxed(const double n)]. *)
Definition boxed_double (n : double) : M boxed := make_shared (PDouble n).

(** [boxed(const bool b)]. *)
Definition boxed_bool (b : bool) : M boxed := make_shared (PBool b).

(** [boxed(const char s[])]. *)
Definition boxed_c_str (s : string) : M boxed := make_shared (PString (c_str s)).

(** [boxed(string&& s)] and [boxed(const string& s)]. *)
Definition boxed_string (s : string) : M boxed := make_shared (PString s).

(** [boxed(array_t&& l)] and [boxed(const array_t& l)]. *)
Definition boxed_array (l : array_t) : M boxed := make_shared (PArray l).

(** [boxed(dict_t&& m)] and [boxed(const dict_t& m)]. *)
Definition boxed_dict (m : dict_t) : M boxed := make_shared (PDict m).

(** [boxed(const T& f)] for [T] assignable to [std::function<boxed(boxed)>]. *)
Definition boxed_fn (f : closure) : M boxed := make_shared (PFn f).

(** [boxed(const T& f)] for [T] assignable to [std::function<boxed(void)>]. *)
Definition boxed_eff_fn (f : thunk) : M boxed := make_shared (PEffFn f).

(** An argument from which a [boxed] can be constructed, tagged with the
    constructor that overload resolution selects for its type.  [of_boxed] is
    the copy constructor. *)
Inductive native :=
| of_nullptr
| of_int (n : Z)
| of_long (n : Z)
| of_ulong (n : Z)
| of_double (d : double)
| of_bool (b : bool)
| of_c_str (s : string)
| of_string (s : string)
| of_array (l : array_t)
| of_dict (m : dict_t)
| of_fn (f : closure)
| of_eff_fn (f : thunk)
| of_boxed (b : boxed).

Definition construct (mode : build) (x : native) : M boxed :=
  match x with
  | of_nullptr => boxed_null
  | of_int n => boxed_int n
  | of_long n => boxed_long mode n
  | of_ulong n => boxed_ulong mode n
  | of_double d => boxed_double d
  | of_bool b => boxed_bool b
  | of_c_str s => boxed_c_str s
  | of_string s => boxed_string s
  | of_array l => boxed_array l
  | of_dict m => boxed_dict m
  | of_fn f => boxed_fn f
  | of_eff_fn f => boxed_eff_fn f
  | of_boxed b => ret b
  end.

(** ** [class boxed]: operators *)

(** [operator()(const boxed& arg) const]. *)
Definition boxed_call (self arg : boxed) : M boxed :=
  f <- deref KFn self ;;
  apply_fn f arg.

(** [operator()() const]. *)
Definition boxed_call_eff (self : boxed) : M boxed :=
  f <- deref KEffFn self ;;
  apply_eff f.

(** A [boxed&] into a container or a slot: which [boxed] object of which
    cell it designates. *)
Inductive lvalue :=
| at_key (p : option addr) (key : string)
| at_index (p : option addr) (i : nat)
| at_slot (p : option addr).

(** [operator[](const char key[]) const -> const boxed&], read at once. *)
Definition boxed_index_key_const (self : boxed) (key : string) : M boxed :=
  m <- deref KDict self ;;
  lift (dict_index_const m key).

(** [operator[](const char key[]) -> boxed&]. *)
Definition boxed_index_key (self : boxed) (key : string) : M lvalue :=
  m <- deref KDict self ;;
  put self (PDict (dict_index_mut m key)) ;;
  ret (at_key self key).

(** The element access of [operator[](const int index)]: [at] in a debug
    build, [operator[]] otherwise; [index] is converted to [size_type]. *)
Definition element (mode : build) (l : array_t) (index : Z) : outcome boxed :=
  if debug mode
  then deque_at l (to_size_type index)
  else deque_subscript l (to_size_type index).

(** [operator[](const int index) const -> const boxed&], read at once. *)
Definition boxed_index_const (mode : build) (self : boxed) (index : Z) : M boxed :=
  l <- deref KArray self ;;
  lift (element mode l index).

(** [operator[](const int index) -> boxed&]. *)
Definition boxed_index (mode : build) (self : boxed) (index : Z) : M lvalue :=
  l <- deref KArray self ;;
  lift (element mode l index) ;;
  ret (at_index self (Z.to_nat (to_size_type index))).

(** Reading through a [boxed&]. *)
Definition load (r : lvalue) : M boxed :=
  match r with
  | at_key p key => m <- deref KDict p ;; lift (dict_index_const m key)
  | at_index p i => l <- deref KArray p ;; lift (deque_subscript l (Z.of_nat i))
  | at_slot p => deref KBoxed p
  end.

(** [r = v] for a [boxed& r]: the copy assignment of [boxed], which replaces
    the stored pointer. *)
Definition assign (r : lvalue) (v : boxed) : M unit :=
  match r with
  | at_key p key =>
      m <- deref KDict p ;;
      match m !! key with
      | Some _ => put p (PDict (<[key := v]> m))
      | None => undefined_behaviour
      end
  | at_index p i =>
      l <- deref KArray p ;;
      if decide (i < length l)
      then put p (PArray (<[i := v]> l))
      else undefined_behaviour
  | at_slot p =>
      deref KBoxed p ;;
      put p (PBoxed v)
  end.

(** ** [class boxed_r] *)

(** [boxed_r()]: [std::make_shared<boxed>()]. *)
Definition boxed_r_new : M boxed_r :=
  p <- make_shared (PBoxed None) ;;
  ret (mk_boxed_r p).

(** The implicit copy constructor copies the shared pointer to the slot. *)
Definition boxed_r_copy (r : boxed_r) : boxed_r := mk_boxed_r (slot r).

(** [operator const boxed&() const], read at once. *)
Definition boxed_r_read (r : boxed_r) : M boxed :=
  deref KBoxed (slot r).

(** [operator()(const boxed& arg) const]. *)
Definition boxed_r_call (r : boxed_r) (arg : boxed) : M boxed :=
  b <- deref KBoxed (slot r) ;;
  f <- deref KFn b ;;
  apply_fn f arg.

(** [operator()() const]. *)
Definition boxed_r_call_eff (r : boxed_r) : M boxed :=
  b <- deref KBoxed (slot r) ;;
  f <- deref KEffFn b ;;
  apply_eff f.

(** [operator=(T&& right)]: [b = std::forward<T>(right)] on the slot [b];
    [right] is converted to [boxed] by the constructor for its type.  The
    operands are the arguments of the constructors of [boxed], and [boxed]
    itself. *)
Definition boxed_r_assign (mode : build) (r : boxed_r) (right : native) : M boxed_r :=
  deref KBoxed (slot r) ;;
  v <- construct mode right ;;
  assign (at_slot (slot r)) v ;;
  ret r.

(** ** Free functions *)

(** [box<T>(args...)]. *)
Definition box (k : kind) (v : ctype k) : M boxed := make_shared (inject k v).

(** [unbox<T>(const boxed& b) -> const T&], read at once. *)
Definition unbox (k : kind) (b : boxed) : M (ctype k) := deref k b.

(** [unbox<T>(boxed& b) = v]: a write through the [T&]. *)
Definition unbox_assign (k : kind) (b : boxed) (v : ctype k) : M unit :=
  deref k b ;;
  put b (inject k v).

(** [unbox<T>(const T value) -> T]. *)
Definition unbox_scalar {T : Type} (value : T) : T := value.

(** [unbox<int>(const std::size_t value) -> long long]. *)
Definition unbox_size_t (value : Z) : Z := to_long_long value.

(** [array_length(const boxed& a) -> array_t::size_type]. *)
Definition array_length (a : boxed) : M Z :=
  l <- unbox KArray a ;;
  ret (Z.of_nat (length l)).

(** ** What a Value holds *)

(** The type of the object at an address. *)
Definition cell_kind (h : heap) (a : addr) : option kind :=
  kind_of <$> h !! a.

(** The payload kind a Value holds; none for the empty Value. *)
Definition holds (h : heap) (b : boxed) : option kind :=
  match b with
  | Some a => cell_kind h a
  | None => None
  end.

(** The payload kind held by the Value that a [boxed&] designates. *)
Definition value_kind (h : heap) (r : lvalue) : option kind :=
  match eval (load r) h with
  | Ok b => holds h b
  | _ => None
  end.

(** [value_kind] as a step of a program. *)
Definition observe_kind (r : lvalue) : M (option kind) :=
  fun h => Ok (value_kind h r, h).

(** Every cell of [h] is a cell of [h'], of the same type. *)
Definition kinds_preserved (h h' : heap) : Prop :=
  forall (a : addr) (k : kind), cell_kind h a = Some k -> cell_kind h' a = Some k.

(** An operation that retypes no cell when it returns. *)
Definition kind_stable {A : Type} (m : M A) : Prop :=
  forall (h h' : heap) (r : A), m h = Ok (r, h') -> kinds_preserved h h'.

(** ** Programs over the header *)

(** The operations of the header that act on the store, calls of the
    wrapped callables apart. *)
Inductive op :=
| op_construct (x : native)
| op_box (k : kind) (v : ctype k)
| op_assign (r : lvalue) (v : boxed)
| op_index_key (b : boxed) (key : string)
| op_index (b : boxed) (index : Z)
| op_unbox_assign (k : kind) (b : boxed) (v : ctype k)
| op_boxed_r_new
| op_boxed_r_assign (r : boxed_r) (rhs : native).

Definition step (mode : build) (o : op) : M unit :=
  match o with
  | op_construct x => construct mode x ;; ret tt
  | op_box k v => box k v ;; ret tt
  | op_assign r v => assign r v
  | op_index_key b key => boxed_index_key b key ;; ret tt
  | op_index b index => boxed_index mode b index ;; ret tt
  | op_unbox_assign k b v => unbox_assign k b v
  | op_boxed_r_new => boxed_r_new ;; ret tt
  | op_boxed_r_assign r rhs => boxed_r_assign mode r rhs ;; ret tt
  end.

Fixpoint run (mode : build) (os : list op) : M unit :=
  match os with
  | [] => ret tt
  | o :: os' => step mode o ;; run mode os'
  end.

(** ** Stores without dangling Values *)






(** [boxed(array_t{ 1, 2, 3 })]. *)
Definition array_1_2_3 : M boxed :=
  b1 <- boxed_int 1 ;;
  b2 <- boxed_int 2 ;;
  b3 <- boxed_int 3 ;;
  boxed_array [b1; b2; b3].

(** [boxed(dict_t{ {"x", 10} })]. *)
Definition dict_x_10 : M boxed :=
  v <- boxed_int 10 ;;
  boxed_dict {["x" := v]}.

End Runtime.

(** ** A generated program *)

(** The one callable of the test program:
    [[](const boxed& x) -> boxed { return unbox<int>(x) + 1; }]. *)
Inductive test_fn := add_one.

Inductive test_thunk := .

(** The stores of the test program. *)
Abbreviation test_heap := (list (payload test_fn test_thunk)).

(** [int] addition: overflow is undefined. *)
Definition add_one_body (x : boxed) : St test_heap boxed :=
  n <- unbox KInt x ;;
  if in_int_range (n + 1) then boxed_int (n + 1) else undefined_behaviour.

Global Instance test_callables : Callables test_fn test_thunk := {
  apply_fn f := match f with add_one => add_one_body end;
  apply_eff t := match t with end
}.

(** A second program: the identity function and the thunk that returns
    [undefined]. *)
Definition id_callables : Callables unit unit := {|
  apply_fn _ x := ret x;
  apply_eff _ := ret undefined
|}.

(** * Properties *)

(** ** Integer conversions *)

Lemma in_int_range_spec n : in_int_range n = true <-> int_range n.
Proof. unfold in_int_range, int_range. rewrite andb_true_iff, !Z.leb_le. tauto. Qed.

Lemma static_cast_int_range n : int_range (static_cast_int n).
Proof.
  unfold int_range, static_cast_int, INT_MIN, INT_MAX.
  pose proof (Z.mod_pos_bound (n + 2 ^ 31) (2 ^ 32)). lia.
Qed.

Lemma static_cast_int_id n : int_range n -> static_cast_int n = n.
Proof.
  unfold int_range, static_cast_int, INT_MIN, INT_MAX. intros H.
  rewrite Z.mod_small; lia.
Qed.

Lemma static_cast_int_mod n :
  static_cast_int n = reinterpret_signed32 (n mod 2 ^ 32).
Proof.
  unfold static_cast_int, reinterpret_signed32.
  pose proof (Z.mod_pos_bound n (2 ^ 32)) as Hr.
  pose proof (Z.div_mod n (2 ^ 32)) as Hn.
  set (r := (n mod 2 ^ 32)%Z) in *. set (q := (n / 2 ^ 32)%Z) in *.
  destruct (Z.ltb_spec r (2 ^ 31)).
  - replace (n + 2 ^ 31)%Z with (r + 2 ^ 31 + q * 2 ^ 32)%Z by lia.
    rewrite Z_mod_plus_full, Z.mod_small; lia.
  - replace (n + 2 ^ 31)%Z with (r - 2 ^ 31 + (q + 1) * 2 ^ 32)%Z by lia.
    rewrite Z_mod_plus_full, Z.mod_small; lia.
Qed.

Lemma to_long_long_range n : long_long_range (to_long_long n).
Proof.
  unfold long_long_range, to_long_long.
  pose proof (Z.mod_pos_bound (n + 2 ^ 63) (2 ^ 64)). lia.
Qed.

Lemma to_long_long_small n : (0 <= n < 2 ^ 63)%Z -> to_long_long n = n.
Proof. unfold to_long_long. intros H. rewrite Z.mod_small; lia. Qed.

Lemma to_long_long_large n :
  (2 ^ 63 <= n < 2 ^ 64)%Z -> to_long_long n = (n - 2 ^ 64)%Z.
Proof.
  unfold to_long_long. intros H.
  replace (n + 2 ^ 63)%Z with (n - 2 ^ 63 + 1 * 2 ^ 64)%Z by lia.
  rewrite Z_mod_plus_full, Z.mod_small; lia.
Qed.

Lemma c_str_no_nul s :
  (forall c, In c (list_ascii_of_string s) -> c <> Ascii.zero) -> c_str s = s.
Proof.
  induction s as [|c s IH]; simpl; intros H; [reflexivity|].
  destruct (Ascii.eqb_spec c Ascii.zero) as [->|_].
  - exfalso. apply (H Ascii.zero); [left|]; reflexivity.
  - f_equal. apply IH. intros c' Hc'. apply H. right. exact Hc'.
Qed.


(** ** Cells and casts *)

Section Facts.

Context {closure thunk : Type}.

Local Abbreviation heap := (list (payload closure thunk)).

Lemma project_inject (k : kind) (v : ctype k) :
  project k (inject k v) = Some v :> option (@ctype closure thunk k).
Proof. destruct k; reflexivity. Qed.

Lemma project_Some (k : kind) (o : payload closure thunk) (v : ctype k) :
  project k o = Some v -> o = inject k v.
Proof. destruct k, o; simpl; intros H; inversion H; reflexivity. Qed.

Lemma kind_of_inject (k : kind) (v : @ctype closure thunk k) :
  kind_of (inject k v) = k.
Proof. destruct k; reflexivity. Qed.

Lemma get_fresh (h : heap) (o : payload closure thunk) :
  get (Some (length h)) (h ++ [o]) = Ok (o, h ++ [o]).
Proof. unfold get. rewrite list_lookup_middle; reflexivity. Qed.

Lemma get_Ok (p : option addr) (h h' : heap) (o : payload closure thunk) :
  get p h = Ok (o, h') <-> h' = h /\ exists a, p = Some a /\ h !! a = Some o.
Proof.
  unfold get. split.
  - destruct p as [a|]; [|discriminate].
    destruct (h !! a) as [o'|] eqn:E; [|discriminate].
    intros [= -> ->]. eauto.
  - intros [-> (a & -> & ->)]. reflexivity.
Qed.

Lemma deref_fresh (k : kind) (v : ctype k) (h : heap) :
  deref k (Some (length h)) (h ++ [inject k v]) = Ok (v, h ++ [inject k v]).
Proof. unfold deref, bind. rewrite get_fresh, project_inject. reflexivity. Qed.

Lemma deref_Ok (k : kind) (p : option addr) (h h' : heap) (v : ctype k) :
  deref k p h = Ok (v, h') <->
  h' = h /\ exists a, p = Some a /\ h !! a = Some (inject k v).
Proof.
  unfold deref, bind. split.
  - destruct (get p h) as [[o h1]| |] eqn:G; try discriminate.
    apply get_Ok in G as [-> (a & -> & Ha)].
    destruct (project k o) as [v'|] eqn:P; [|discriminate].
    intros [= -> ->]. apply project_Some in P as ->. eauto.
  - intros [-> (a & -> & Ha)]. unfold get. rewrite Ha, project_inject. reflexivity.
Qed.

(** Reading back what [make_shared] has just stored. *)
Lemma unbox_make_shared (k : kind) (v : ctype k) (h : heap) :
  (b <- make_shared (inject k v) ;; unbox k b) h = Ok (v, h ++ [inject k v]).
Proof. unfold bind, make_shared, unbox. apply deref_fresh. Qed.

(** ** Construction *)

Lemma construct_int (mode : build) (n : Z) (h : heap) :
  construct mode (of_int n) h = Ok (Some (length h), h ++ [PInt n]).
Proof. reflexivity. Qed.

Lemma boxed_long_in_range (mode : build) (n : Z) (h : heap) :
  int_range n ->
  boxed_long mode n h = Ok (Some (length h), h ++ [PInt n]).
Proof.
  intros Hn. unfold boxed_long, bind, make_shared.
  rewrite (static_cast_int_id n Hn).
  unfold int_range in Hn.
  destruct (Z.ltb_spec n INT_MIN); [lia|].
  destruct (Z.gtb_spec n INT_MAX); [lia|].
  rewrite andb_false_r. reflexivity.
Qed.

Lemma boxed_long_debug_out_of_range (n : Z) (h : heap) :
  ~ int_range n ->
  boxed_long Debug n h = Throw (runtime_error "integer out of range").
Proof.
  intros Hn. unfold boxed_long, bind, make_shared, int_range in *. simpl.
  destruct (Z.ltb_spec n INT_MIN); [reflexivity|].
  destruct (Z.gtb_spec n INT_MAX); [reflexivity|lia].
Qed.

Lemma boxed_long_release (n : Z) (h : heap) :
  boxed_long Release n h = Ok (Some (length h), h ++ [PInt (static_cast_int n)]).
Proof. reflexivity. Qed.

Lemma boxed_ulong_in_range (mode : build) (n : Z) (h : heap) :
  int_range n ->
  boxed_ulong mode n h = Ok (Some (length h), h ++ [PInt n]).
Proof.
  intros Hn. unfold boxed_ulong, bind, make_shared.
  rewrite (static_cast_int_id n Hn).
  unfold int_range in Hn.
  destruct (Z.gtb_spec n INT_MAX); [lia|].
  rewrite andb_false_r. reflexivity.
Qed.

Lemma boxed_ulong_debug_out_of_range (n : Z) (h : heap) :
  (0 <= n)%Z -> ~ int_range n ->
  boxed_ulong Debug n h = Throw (runtime_error "integer out of range").
Proof.
  intros H0 Hn. unfold boxed_ulong, bind, make_shared, int_range, INT_MIN in *. simpl.
  destruct (Z.gtb_spec n INT_MAX); [reflexivity|lia].
Qed.

Lemma boxed_ulong_release (n : Z) (h : heap) :
  boxed_ulong Release n h = Ok (Some (length h), h ++ [PInt (static_cast_int n)]).
Proof. reflexivity. Qed.

(** Unboxing what a successful construction has stored. *)
Lemma eval_unbox_fresh (k : kind) (v : ctype k) (m : St heap boxed) (h : heap) :
  m h = Ok (Some (length h), h ++ [inject k v]) ->
  eval (b <- m ;; unbox k b) h = Ok v.
Proof.
  intros Hm. unfold eval, bind. rewrite Hm.
  unfold unbox. rewrite deref_fresh. reflexivity.
Qed.

(** C1: constructing a Value from a native int, double, bool, string, array
    payload or dict payload and unboxing it at the matching payload type gives
    back the input, in either build and from any store. *)
Theorem unbox_boxed_roundtrip (mode : build) (h : heap) :
  (forall n : Z, eval (b <- construct mode (of_int n) ;; unbox KInt b) h = Ok n) /\
  (forall d : double, eval (b <- construct mode (of_double d) ;; unbox KDouble b) h = Ok d) /\
  (forall t : bool, eval (b <- construct mode (of_bool t) ;; unbox KBool b) h = Ok t) /\
  (forall s : string, eval (b <- construct mode (of_string s) ;; unbox KString b) h = Ok s) /\
  (forall a : array_t, eval (b <- construct mode (of_array a) ;; unbox KArray b) h = Ok a) /\
  (forall m : dict_t, eval (b <- construct mode (of_dict m) ;; unbox KDict b) h = Ok m).
Proof.
  repeat split; intros v.
  - exact (eval_unbox_fresh KInt v _ h eq_refl).
  - exact (eval_unbox_fresh KDouble v _ h eq_refl).
  - exact (eval_unbox_fresh KBool v _ h eq_refl).
  - exact (eval_unbox_fresh KString v _ h eq_refl).
  - exact (eval_unbox_fresh KArray v _ h eq_refl).
  - exact (eval_unbox_fresh KDict v _ h eq_refl).
Qed.

(** C9: the [int] constructor has no range check: in either build it
    succeeds and stores [n] as it is.  A construction that throws is a debug
    construction from a [long] or [unsigned long] outside the [int] range, and
    no construction has undefined behaviour. *)
Theorem boxed_int_unchecked (mode : build) (h : heap) :
  (forall n : Z,
      construct mode (of_int n) h = Ok (Some (length h), h ++ [PInt n]) /\
      eval (b <- construct mode (of_int n) ;; unbox KInt b) h = Ok n) /\
  (forall (x : native) (e : exn),
      construct mode x h = Throw e ->
      mode = Debug /\
      e = runtime_error "integer out of range" /\
      ((exists n, x = of_long n /\ ~ int_range n) \/
       (exists n, x = of_ulong n /\ (n > INT_MAX)%Z))) /\
  (forall x : native, construct mode x h <> UB).
Proof.
  split; [|split].
  - intros n. split; [reflexivity|].
    exact (eval_unbox_fresh KInt n _ h eq_refl).
  - intros x e Hx. destruct x; try discriminate Hx; simpl in Hx.
    + unfold boxed_long, bind, make_shared in Hx.
      destruct mode; [|discriminate Hx]. simpl in Hx.
      destruct (Z.ltb_spec n INT_MIN); simpl in Hx.
      * injection Hx as <-. repeat split. left. exists n. split; [reflexivity|].
        unfold int_range. lia.
      * destruct (Z.gtb_spec n INT_MAX); [|discriminate Hx].
        injection Hx as <-. repeat split. left. exists n. split; [reflexivity|].
        unfold int_range. lia.
    + unfold boxed_ulong, bind, make_shared in Hx.
      destruct mode; [|discriminate Hx]. simpl in Hx.
      destruct (Z.gtb_spec n INT_MAX); [|discriminate Hx].
      injection Hx as <-. repeat split. right. exists n. split; [reflexivity|lia].
  - intros x Hx. destruct x; try discriminate Hx; simpl in Hx.
    + unfold boxed_long, bind, make_shared in Hx.
      destruct (debug mode && _); discriminate Hx.
    + unfold boxed_ulong, bind, make_shared in Hx.
      destruct (debug mode && _); discriminate Hx.
Qed.

(** C2: a [long] or [unsigned long] [n].  Within the [int] range, both
    builds construct the Value and unboxing gives [n].  Outside it, the debug
    build throws "integer out of range" and the release build stores [n]
    modulo 2^32 read as a signed 32-bit number. *)
Theorem boxed_wide_integer (n : Z) (x : native) (h : heap)
  (Hx : x = of_long n /\ long_range n \/ x = of_ulong n /\ ulong_range n) :
  (int_range n ->
   forall mode : build, eval (b <- construct mode x ;; unbox KInt b) h = Ok n) /\
  (~ int_range n ->
   construct Debug x h = Throw (runtime_error "integer out of range") /\
   eval (b <- construct Release x ;; unbox KInt b) h =
     Ok (reinterpret_signed32 (n mod 2 ^ 32))).
Proof.
  destruct Hx as [[-> Hn]|[-> Hn]]; simpl; (split; [intros Hr mode|intros Hr; split]).
  - apply (eval_unbox_fresh KInt). apply boxed_long_in_range, Hr.
  - apply boxed_long_debug_out_of_range, Hr.
  - rewrite <- static_cast_int_mod.
    apply (eval_unbox_fresh KInt). apply boxed_long_release.
  - apply (eval_unbox_fresh KInt). apply boxed_ulong_in_range, Hr.
  - apply boxed_ulong_debug_out_of_range; [apply Hn|apply Hr].
  - rewrite <- static_cast_int_mod.
    apply (eval_unbox_fresh KInt). apply boxed_ulong_release.
Qed.


(** ** Sequences *)

Lemma lookup_app_add (h l : heap) (i : nat) :
  (h ++ l) !! (length h + i) = l !! i.
Proof. rewrite lookup_app_r by lia. f_equal. lia. Qed.

Lemma get_app_add (h l : heap) (i : nat) (o : payload closure thunk) :
  l !! i = Some o ->
  get (Some (length h + i)) (h ++ l) = Ok (o, h ++ l).
Proof. intros Hl. unfold get. rewrite lookup_app_add, Hl. reflexivity. Qed.

Lemma deref_app_add (k : kind) (v : ctype k) (h l : heap) (i : nat) :
  l !! i = Some (inject k v) ->
  deref k (Some (length h + i)) (h ++ l) = Ok (v, h ++ l).
Proof.
  intros Hl. unfold deref, bind.
  rewrite (get_app_add h l i _ Hl), project_inject. reflexivity.
Qed.

(** Running an operation whose first step is known. *)
Lemma eval_bind {A B : Type} (m : St heap A) (k : A -> St heap B)
    (h h' : heap) (a : A) :
  m h = Ok (a, h') ->
  eval (x <- m ;; k x) h = eval (k a) h'.
Proof. intros Hm. unfold eval, bind. rewrite Hm. reflexivity. Qed.

Lemma eval_ret {A : Type} (a : A) (h : heap) : eval (ret a) h = Ok a.
Proof. reflexivity. Qed.

Lemma bind_assoc {A B D : Type} (m : St heap A) (f : A -> St heap B)
    (g : B -> St heap D) (h : heap) :
  (y <- (x <- m ;; f x) ;; g y) h = (x <- m ;; y <- f x ;; g y) h.
Proof. unfold bind. destruct (m h) as [[a h']| |]; reflexivity. Qed.

Lemma eval_bind_assoc {A B D : Type} (m : St heap A) (f : A -> St heap B)
    (g : B -> St heap D) (h : heap) :
  eval (y <- (x <- m ;; f x) ;; g y) h = eval (x <- m ;; y <- f x ;; g y) h.
Proof. unfold eval. rewrite bind_assoc. reflexivity. Qed.

Local Abbreviation elements_1_2_3 h :=
  [Some (length h + 0); Some (length h + 1); Some (length h + 2)].
Local Abbreviation store_1_2_3 h :=
  (h ++ [PInt 1; PInt 2; PInt 3; PArray (elements_1_2_3 h)]).

(** The store and the Value that [array_1_2_3] leaves. *)
Lemma array_1_2_3_run (h : heap) :
  array_1_2_3 h = Ok (Some (length h + 3), store_1_2_3 h).
Proof.
  unfold array_1_2_3, bind, boxed_int, boxed_array, make_shared.
  rewrite !length_app, <- !app_assoc. simpl.
  rewrite <- !Nat.add_assoc, Nat.add_0_r. reflexivity.
Qed.

Lemma array_1_2_3_payload (h : heap) :
  deref KArray (Some (length h + 3)) (store_1_2_3 h)
  = Ok (elements_1_2_3 h, store_1_2_3 h).
Proof. apply (deref_app_add KArray (elements_1_2_3 h)). reflexivity. Qed.

(** Element access inside the bounds, in either build. *)
Lemma element_in_bounds (mode : build) (l : array_t) (index : Z) (v : boxed) :
  (0 <= index < 2 ^ 64)%Z ->
  l !! Z.to_nat index = Some v ->
  element mode l index = Ok v.
Proof.
  intros Hi Hl. unfold element, deque_at, deque_subscript, to_size_type.
  rewrite Z.mod_small by lia. rewrite Hl. destruct mode; reflexivity.
Qed.

(** Element access outside the bounds of a sequence of at most 2^63
    elements: the debug build throws, the release build is undefined. *)
Lemma element_out_of_bounds (mode : build) (l : array_t) (index : Z) :
  int_range index ->
  (Z.of_nat (length l) <= 2 ^ 63)%Z ->
  ~ (0 <= index < Z.of_nat (length l))%Z ->
  element mode l index = if debug mode then Throw out_of_range else UB.
Proof.
  unfold int_range, INT_MIN, INT_MAX, element, deque_at, deque_subscript, to_size_type.
  intros Hi Hlen Hout.
  assert (l !! Z.to_nat (index mod 2 ^ 64) = None) as ->.
  { apply lookup_ge_None.
    destruct (Z.neg_nonneg_cases index) as [Hneg|Hpos].
    - replace index with (index + 2 ^ 64 + (-1) * 2 ^ 64)%Z by lia.
      rewrite Z_mod_plus_full, Z.mod_small by lia. lia.
    - rewrite Z.mod_small by lia. lia. }
  destruct mode; reflexivity.
Qed.

(** C3: the sequence Value built from [1, 2, 3], in any store.  Its length
    is 3; the read at index 1 is the Value 2 in both builds; the read at index
    5 throws [std::out_of_range] in a debug build and is unchecked, hence
    undefined, in a release build.  The mutable operator behaves alike. *)
Theorem array_1_2_3_indexing (h : heap) :
  eval (a <- array_1_2_3 ;; array_length a) h = Ok 3%Z /\
  (forall mode : build,
      eval (a <- array_1_2_3 ;; e <- boxed_index_const mode a 1 ;; unbox KInt e) h
      = Ok 2%Z) /\
  eval (a <- array_1_2_3 ;; boxed_index_const Debug a 5) h = Throw out_of_range /\
  eval (a <- array_1_2_3 ;; boxed_index_const Release a 5) h = UB /\
  eval (a <- array_1_2_3 ;; boxed_index Debug a 5) h = Throw out_of_range /\
  eval (a <- array_1_2_3 ;; boxed_index Release a 5) h = UB.
Proof.
  pose proof (array_1_2_3_run h) as Hrun.
  pose proof (array_1_2_3_payload h) as Hl.
  repeat split; [|intros mode|..]; rewrite (eval_bind _ _ _ _ _ Hrun).
  - unfold array_length, unbox. rewrite (eval_bind _ _ _ _ _ Hl). reflexivity.
  - unfold boxed_index_const.
    rewrite eval_bind_assoc, (eval_bind _ _ _ _ _ Hl).
    rewrite (element_in_bounds mode _ 1 (Some (length h + 1))) by (reflexivity || lia).
    unfold unbox, eval, bind, lift.
    rewrite (deref_app_add KInt 2%Z h _ 1) by reflexivity. reflexivity.
  - unfold eval, boxed_index_const, bind. rewrite Hl. reflexivity.
  - unfold eval, boxed_index_const, bind. rewrite Hl. reflexivity.
  - unfold eval, boxed_index, bind. rewrite Hl. reflexivity.
  - unfold eval, boxed_index, bind. rewrite Hl. reflexivity.
Qed.

(** ** Mappings *)

Lemma bind_Ok {A B : Type} (m : St heap A) (k : A -> St heap B)
    (h h' : heap) (a : A) :
  m h = Ok (a, h') -> (x <- m ;; k x) h = k a h'.
Proof. intros Hm. unfold bind. rewrite Hm. reflexivity. Qed.

Lemma deref_lookup (k : kind) (v : ctype k) (a : addr) (h : heap) :
  h !! a = Some (inject k v) -> deref k (Some a) h = Ok (v, h).
Proof. intros Ha. apply deref_Ok. eauto. Qed.

Lemma put_lookup (a : addr) (o o' : payload closure thunk) (h : heap) :
  h !! a = Some o' -> put (Some a) o h = Ok (tt, <[a := o]> h).
Proof.
  intros Ha. unfold put. apply lookup_lt_Some in Ha.
  destruct (decide (a < length h)); [reflexivity|lia].
Qed.

(** Const keyed lookup: the entry when the key is bound, undefined when not. *)
Lemma boxed_index_key_const_lookup (a : addr) (m : dict_t) (key : string) (h : heap) :
  h !! a = Some (PDict m) ->
  boxed_index_key_const (Some a) key h =
    match m !! key with
    | Some v => Ok (v, h)
    | None => UB
    end.
Proof.
  intros Ha. unfold boxed_index_key_const.
  rewrite (bind_Ok _ _ _ _ _ (deref_lookup KDict m a h Ha)).
  unfold lift, dict_index_const. destruct (m !! key); reflexivity.
Qed.

(** Mutable keyed lookup of an absent key binds it to the empty Value, in
    place, and designates the new entry. *)
Lemma boxed_index_key_absent (a : addr) (m : dict_t) (key : string) (h : heap) :
  h !! a = Some (PDict m) ->
  m !! key = None ->
  boxed_index_key (Some a) key h =
    Ok (at_key (Some a) key, <[a := PDict (<[key := undefined]> m)]> h).
Proof.
  intros Ha Hk. unfold boxed_index_key.
  rewrite (bind_Ok _ _ _ _ _ (deref_lookup KDict m a h Ha)).
  unfold dict_index_mut. rewrite Hk.
  rewrite (bind_Ok _ _ _ _ _ (put_lookup a _ _ h Ha)). reflexivity.
Qed.

(** Mutable keyed lookup of a bound key leaves the store as it is. *)
Lemma boxed_index_key_present (a : addr) (m : dict_t) (key : string) (v : boxed)
    (h : heap) :
  h !! a = Some (PDict m) ->
  m !! key = Some v ->
  boxed_index_key (Some a) key h = Ok (at_key (Some a) key, h).
Proof.
  intros Ha Hk. unfold boxed_index_key.
  rewrite (bind_Ok _ _ _ _ _ (deref_lookup KDict m a h Ha)).
  unfold dict_index_mut. rewrite Hk.
  rewrite (bind_Ok _ _ _ _ _ (put_lookup a _ _ h Ha)).
  rewrite list_insert_id by exact Ha. reflexivity.
Qed.

Lemma boxed_index_key_const_Some (a : addr) (m : dict_t) (key : string)
    (v : boxed) (h : heap) :
  h !! a = Some (PDict m) ->
  m !! key = Some v ->
  boxed_index_key_const (Some a) key h = Ok (v, h).
Proof.
  intros Ha Hk. rewrite (boxed_index_key_const_lookup a m key h Ha).
  destruct (m !! key); congruence.
Qed.

Lemma boxed_index_key_const_None (a : addr) (m : dict_t) (key : string) (h : heap) :
  h !! a = Some (PDict m) ->
  m !! key = None ->
  boxed_index_key_const (Some a) key h = UB.
Proof.
  intros Ha Hk. rewrite (boxed_index_key_const_lookup a m key h Ha).
  destruct (m !! key); congruence.
Qed.

Lemma load_at_key (a : addr) (m : dict_t) (key : string) (v : boxed) (h : heap) :
  h !! a = Some (PDict m) ->
  m !! key = Some v ->
  load (at_key (Some a) key) h = Ok (v, h).
Proof. apply boxed_index_key_const_Some. Qed.

Lemma assign_at_key (a : addr) (m : dict_t) (key : string) (v0 v : boxed) (h : heap) :
  h !! a = Some (PDict m) ->
  m !! key = Some v0 ->
  assign (at_key (Some a) key) v h = Ok (tt, <[a := PDict (<[key := v]> m)]> h).
Proof.
  intros Ha Hk. unfold assign.
  rewrite (bind_Ok _ _ _ _ _ (deref_lookup KDict m a h Ha)).
  cbn [ctype]. rewrite Hk. apply (put_lookup a _ _ h Ha).
Qed.

Local Abbreviation entries_x_10 h := ({["x" := Some (length h + 0)]} : dict_t).
Local Abbreviation store_x_10 h := (h ++ [PInt 10; PDict (entries_x_10 h)]).

(** The store and the Value that [dict_x_10] leaves. *)
Lemma dict_x_10_run (h : heap) :
  dict_x_10 h = Ok (Some (length h + 1), store_x_10 h).
Proof.
  unfold dict_x_10, bind, boxed_int, boxed_dict, make_shared.
  rewrite !length_app, <- !app_assoc, Nat.add_0_r. reflexivity.
Qed.

(** C6: the mapping Value in which "x" is bound to the Value 10, in any store.
    Const lookup of "x" is the Value 10; const lookup of the absent "y" is a
    contract violation; mutable lookup of "y" binds "y" to the empty Value in
    the mapping and returns a reference to that entry, which reads as empty,
    can be written through, and leaves "x" bound to 10. *)
Theorem dict_x_10_lookup (h : heap) :
  eval (d <- dict_x_10 ;; e <- boxed_index_key_const d "x" ;; unbox KInt e) h
    = Ok 10%Z /\
  eval (d <- dict_x_10 ;; boxed_index_key_const d "y") h = UB /\
  eval (d <- dict_x_10 ;; r <- boxed_index_key d "y" ;;
        m <- unbox KDict d ;; ret (r, m)) h
    = Ok (at_key (Some (length h + 1)) "y",
          <["y" := undefined]> (entries_x_10 h)) /\
  eval (d <- dict_x_10 ;; r <- boxed_index_key d "y" ;; load r) h = Ok undefined /\
  (forall v : boxed,
      eval (d <- dict_x_10 ;; r <- boxed_index_key d "y" ;;
            assign r v ;; boxed_index_key_const d "y") h = Ok v) /\
  eval (d <- dict_x_10 ;; r <- boxed_index_key d "y" ;;
        e <- boxed_index_key_const d "x" ;; unbox KInt e) h = Ok 10%Z.
Proof.
  pose proof (dict_x_10_run h) as Hrun.
  assert (store_x_10 h !! (length h + 1) = Some (PDict (entries_x_10 h))) as Hd.
  { rewrite lookup_app_add. reflexivity. }
  assert (store_x_10 h !! (length h + 0) = Some (PInt 10)) as Hv.
  { rewrite lookup_app_add. reflexivity. }
  assert (entries_x_10 h !! "x" = Some (Some (length h + 0))) as Hx.
  { apply lookup_singleton_eq. }
  assert (entries_x_10 h !! "y" = None) as Hy.
  { apply lookup_singleton_ne. discriminate. }
  pose proof (boxed_index_key_absent _ _ _ _ Hd Hy) as Hins.
  set (h2 := <[length h + 1 := PDict (<["y" := undefined]> (entries_x_10 h))]>
               (store_x_10 h)) in *.
  assert (h2 !! (length h + 1)
          = Some (PDict (<["y" := undefined]> (entries_x_10 h)))) as Hd2.
  { apply list_lookup_insert_eq. apply lookup_lt_Some in Hd. exact Hd. }
  assert (h2 !! (length h + 0) = Some (PInt 10)) as Hv2.
  { unfold h2. rewrite list_lookup_insert_ne by lia. exact Hv. }
  assert (<["y" := undefined]> (entries_x_10 h) !! "x"
          = Some (Some (length h + 0))) as Hx2.
  { rewrite lookup_insert_ne by discriminate. exact Hx. }
  assert (<["y" := undefined]> (entries_x_10 h) !! "y" = Some undefined) as Hy2
    by apply lookup_insert_eq.
  repeat split; [| | | |intros v|]; rewrite (eval_bind _ _ _ _ _ Hrun).
  - rewrite (eval_bind _ _ _ _ _ (boxed_index_key_const_Some _ _ _ _ _ Hd Hx)).
    unfold unbox, eval. rewrite (deref_lookup KInt 10%Z _ _ Hv). reflexivity.
  - unfold eval. rewrite (boxed_index_key_const_None _ _ _ _ Hd Hy). reflexivity.
  - rewrite (eval_bind _ _ _ _ _ Hins). unfold unbox.
    rewrite (eval_bind _ _ _ _ _ (deref_lookup KDict _ _ _ Hd2)). reflexivity.
  - rewrite (eval_bind _ _ _ _ _ Hins). unfold eval.
    rewrite (load_at_key _ _ _ _ _ Hd2 Hy2). reflexivity.
  - rewrite (eval_bind _ _ _ _ _ Hins).
    rewrite (eval_bind _ _ _ _ _ (assign_at_key _ _ _ _ v _ Hd2 Hy2)).
    unfold eval.
    rewrite (boxed_index_key_const_Some _
               (<["y" := v]> (<["y" := undefined]> (entries_x_10 h))) "y" v).
    + reflexivity.
    + apply list_lookup_insert_eq. apply lookup_lt_Some in Hd2. exact Hd2.
    + apply lookup_insert_eq.
  - rewrite (eval_bind _ _ _ _ _ Hins).
    rewrite (eval_bind _ _ _ _ _ (boxed_index_key_const_Some _ _ _ _ _ Hd2 Hx2)).
    unfold unbox, eval. rewrite (deref_lookup KInt 10%Z _ _ Hv2). reflexivity.
Qed.

(** ** Forward references *)

Lemma boxed_r_new_run (h : heap) :
  boxed_r_new h = Ok (mk_boxed_r (Some (length h)), h ++ [PBoxed None]).
Proof. reflexivity. Qed.

Lemma boxed_r_read_lookup (a : addr) (b : boxed) (h : heap) :
  h !! a = Some (PBoxed b) ->
  boxed_r_read (mk_boxed_r (Some a)) h = Ok (b, h).
Proof. intros Ha. apply (deref_lookup KBoxed b a h Ha). Qed.

(** Construction leaves every existing cell as it is. *)
Lemma construct_extends (mode : build) (x : native) (h h1 : heap) (v : boxed) :
  construct mode x h = Ok (v, h1) ->
  exists l, h1 = h ++ l /\ (v = Some (length h) \/ x = of_boxed v \/ v = None).
Proof.
  destruct x; simpl; unfold boxed_null, boxed_int, boxed_long, boxed_ulong,
    boxed_double, boxed_bool, boxed_c_str, boxed_string, boxed_array, boxed_dict,
    boxed_fn, boxed_eff_fn, bind, make_shared, ret, throw.
  all: try (intros [= <- <-]; eauto).
  - exists []. rewrite app_nil_r. auto.
  - destruct (debug mode && _); [discriminate|]. intros [= <- <-]; eauto.
  - destruct (debug mode && _); [discriminate|]. intros [= <- <-]; eauto.
  - exists []. rewrite app_nil_r. auto.
Qed.

(** Assignment to a forward reference whose slot is live, from an input whose
    construction succeeds: the slot cell, and only it, is overwritten with the
    constructed Value. *)
Lemma boxed_r_assign_run (mode : build) (r : boxed_r) (x : native)
    (h h1 : heap) (old v : boxed) :
  deref KBoxed (slot r) h = Ok (old, h) ->
  construct mode x h = Ok (v, h1) ->
  exists a, slot r = Some a /\ a < length h /\
    boxed_r_assign mode r x h = Ok (r, <[a := PBoxed v]> h1).
Proof.
  intros Hr Hv.
  apply deref_Ok in Hr as [_ (a & Hs & Ha)]. simpl in Ha.
  destruct (construct_extends mode x h h1 v Hv) as (l & -> & _).
  assert ((h ++ l) !! a = Some (PBoxed old)) as Ha1.
  { rewrite lookup_app_l by (apply lookup_lt_Some in Ha; exact Ha). exact Ha. }
  exists a. split; [exact Hs|]. split; [apply lookup_lt_Some in Ha; exact Ha|].
  unfold boxed_r_assign. rewrite Hs.
  rewrite (bind_Ok _ _ _ _ _ (deref_lookup KBoxed old a h Ha)).
  rewrite (bind_Ok _ _ _ _ _ Hv).
  unfold assign.
  rewrite bind_assoc, (bind_Ok _ _ _ _ _ (deref_lookup KBoxed old a _ Ha1)).
  rewrite (bind_Ok _ _ _ _ _ (put_lookup a _ _ _ Ha1)).
  reflexivity.
Qed.

(** When the construction of the input throws, so does the assignment. *)
Lemma boxed_r_assign_throw (mode : build) (r : boxed_r) (x : native)
    (h : heap) (old : boxed) (e : exn) :
  deref KBoxed (slot r) h = Ok (old, h) ->
  construct mode x h = Throw e ->
  boxed_r_assign mode r x h = Throw e.
Proof.
  intros Hr Hv. unfold boxed_r_assign.
  rewrite (bind_Ok _ _ _ _ _ Hr). unfold bind. rewrite Hv. reflexivity.
Qed.

Lemma boxed_r_copy_eq (r : boxed_r) : boxed_r_copy r = r.
Proof. destruct r. reflexivity. Qed.

(** C5: a forward reference [r] whose slot is live, and an input [x] from
    which the Value [v] is constructed.  The assignment [r = x] succeeds and
    returns [r] itself; reading [r] afterwards yields [v], the very Value the
    direct construction yields; every cell but the slot is as the direct
    construction leaves it, so [v] unboxes alike at every type; the slot is
    the same cell as before, still a slot. *)
Theorem boxed_r_assign_read (mode : build) (r : boxed_r) (x : native)
    (h h1 : heap) (old v : boxed)
    (Hr : deref KBoxed (slot r) h = Ok (old, h))
    (Hv : construct mode x h = Ok (v, h1)) :
  exists h' : heap,
    boxed_r_assign mode r x h = Ok (r, h') /\
    boxed_r_read r h' = Ok (v, h') /\
    (forall a : addr, Some a <> slot r -> h' !! a = h1 !! a) /\
    (forall k : kind, v <> slot r -> eval (unbox k v) h' = eval (unbox k v) h1) /\
    holds h' (slot r) = Some KBoxed /\
    length h' = length h1.
Proof.
  destruct (boxed_r_assign_run mode r x h h1 old v Hr Hv) as (a & Hs & Ha & Hrun).
  destruct (construct_extends mode x h h1 v Hv) as (l & -> & _).
  assert (a < length (h ++ l)) as Ha1 by (rewrite length_app; lia).
  exists (<[a := PBoxed v]> (h ++ l)). repeat split.
  - exact Hrun.
  - unfold boxed_r_read. rewrite Hs. apply (deref_lookup KBoxed v).
    apply list_lookup_insert_eq, Ha1.
  - intros a' Hne. apply list_lookup_insert_ne. congruence.
  - intros k Hne. unfold eval, unbox, deref, bind, get.
    destruct v as [p|]; [|reflexivity].
    rewrite list_lookup_insert_ne by congruence.
    destruct ((h ++ l) !! p) as [o|]; [|reflexivity].
    destruct (project k o); reflexivity.
  - rewrite Hs. unfold holds, cell_kind.
    rewrite list_lookup_insert_eq by exact Ha1. reflexivity.
  - apply length_insert.
Qed.

(** Two forward references constructed separately have distinct slots: an
    assignment through one is not seen through the other. *)
Lemma boxed_r_new_distinct (mode : build) (n : Z) (h : heap) :
  eval (r1 <- boxed_r_new ;; r2 <- boxed_r_new ;;
        boxed_r_assign mode r1 (of_int n) ;; boxed_r_read r2) h = Ok undefined.
Proof.
  set (h1 := h ++ [PBoxed None]).
  set (h2 := h1 ++ [PBoxed None]).
  rewrite (eval_bind _ _ _ _ _ (boxed_r_new_run h)).
  rewrite (eval_bind _ _ _ _ _ (boxed_r_new_run h1)).
  fold h1 h2.
  assert (h2 !! length h = Some (PBoxed None)) as H1.
  { unfold h2, h1. rewrite <- app_assoc. apply list_lookup_middle. reflexivity. }
  assert (h2 !! length h1 = Some (PBoxed None)) as H2.
  { unfold h2. apply list_lookup_middle. reflexivity. }
  destruct (boxed_r_assign_run mode (mk_boxed_r (Some (length h))) (of_int n)
              h2 (h2 ++ [PInt n]) None (Some (length h2))) as (a & [= <-] & _ & Hrun).
  { apply (deref_lookup KBoxed None _ _ H1). }
  { reflexivity. }
  rewrite (eval_bind _ _ _ _ _ Hrun).
  unfold eval. rewrite (boxed_r_read_lookup (length h1) None); [reflexivity|].
  rewrite list_lookup_insert_ne by (unfold h1; rewrite length_app; simpl; lia).
  rewrite lookup_app_l by (apply lookup_lt_Some in H2; exact H2).
  exact H2.
Qed.

(** After an assignment, the slot reads as the assigned Value. *)
Lemma boxed_r_assign_then_read (mode : build) (r : boxed_r) (x : native)
    (h h1 : heap) (old v : boxed) :
  deref KBoxed (slot r) h = Ok (old, h) ->
  construct mode x h = Ok (v, h1) ->
  exists h' : heap,
    boxed_r_assign mode r x h = Ok (r, h') /\
    boxed_r_read r h' = Ok (v, h').
Proof.
  intros Hr Hv.
  destruct (boxed_r_assign_run mode r x h h1 old v Hr Hv) as (a & Hs & Ha & Hrun).
  destruct (construct_extends mode x h h1 v Hv) as (l & -> & _).
  eexists. split; [exact Hrun|].
  unfold boxed_r_read. rewrite Hs. apply (deref_lookup KBoxed v).
  apply list_lookup_insert_eq. rewrite length_app. lia.
Qed.

(** ** Payload kinds *)

Create HintDb kinds.

Local Abbreviation stable := (@kind_stable closure thunk _).

Lemma kinds_preserved_refl (h : heap) : kinds_preserved h h.
Proof. intros a k Hk. exact Hk. Qed.

Lemma kinds_preserved_trans (h1 h2 h3 : heap) :
  kinds_preserved h1 h2 -> kinds_preserved h2 h3 -> kinds_preserved h1 h3.
Proof. intros H12 H23 a k Hk. apply H23, H12, Hk. Qed.

Lemma kinds_preserved_app (h l : heap) : kinds_preserved h (h ++ l).
Proof.
  intros a k. unfold cell_kind.
  destruct (h !! a) as [o|] eqn:E; [|discriminate].
  rewrite (lookup_app_l_Some _ _ _ _ E). trivial.
Qed.

Lemma kinds_preserved_insert (h : heap) (a : addr) (o o' : payload closure thunk) :
  h !! a = Some o' ->
  kind_of o = kind_of o' ->
  kinds_preserved h (<[a := o]> h).
Proof.
  intros Ha Hk a0 k0. unfold cell_kind.
  destruct (decide (a = a0)) as [<-|Hne].
  - rewrite list_lookup_insert_eq by (apply lookup_lt_Some in Ha; exact Ha).
    rewrite Ha. simpl. congruence.
  - rewrite list_lookup_insert_ne by exact Hne. trivial.
Qed.

Lemma bind_Ok_inv {A B : Type} (m : St heap A) (f : A -> St heap B)
    (h h' : heap) (b : B) :
  (x <- m ;; f x) h = Ok (b, h') ->
  exists a h1, m h = Ok (a, h1) /\ f a h1 = Ok (b, h').
Proof.
  unfold bind. destruct (m h) as [[a h1]| |]; try discriminate. eauto.
Qed.

Lemma put_Ok_inv (p : option addr) (o : payload closure thunk) (h h' : heap) (r : unit) :
  put p o h = Ok (r, h') ->
  exists a, p = Some a /\ a < length h /\ h' = <[a := o]> h.
Proof.
  unfold put. destruct p as [a|]; [|discriminate].
  destruct (decide (a < length h)); [|discriminate].
  intros [= _ <-]. eauto.
Qed.

Lemma kind_stable_ret {A : Type} (a : A) : stable (ret a).
Proof. intros h h' r [= _ <-]. apply kinds_preserved_refl. Qed.

Lemma kind_stable_throw {A : Type} (e : exn) : stable (throw e : St heap A).
Proof. intros h h' r [=]. Qed.

Lemma kind_stable_undefined {A : Type} :
  stable (undefined_behaviour : St heap A).
Proof. intros h h' r [=]. Qed.

Lemma kind_stable_lift {A : Type} (o : outcome A) : stable (lift o).
Proof.
  intros h h' r. unfold lift. destruct o; intros [=]. subst.
  apply kinds_preserved_refl.
Qed.

Lemma kind_stable_bind {A B : Type} (m : St heap A) (f : A -> St heap B) :
  stable m -> (forall a, stable (f a)) -> stable (x <- m ;; f x).
Proof.
  intros Hm Hf h h' r Hrun.
  apply bind_Ok_inv in Hrun as (a & h1 & H1 & H2).
  eapply kinds_preserved_trans; [eapply Hm, H1|eapply Hf, H2].
Qed.

Lemma kind_stable_make_shared (o : payload closure thunk) :
  stable (make_shared o).
Proof. intros h h' r [= _ <-]. apply kinds_preserved_app. Qed.

Lemma kind_stable_deref (k : kind) (p : option addr) : stable (deref k p).
Proof.
  intros h h' v Hd. apply deref_Ok in Hd as [-> _]. apply kinds_preserved_refl.
Qed.

Lemma kind_stable_construct (mode : build) (x : native) :
  stable (construct mode x).
Proof.
  intros h h' v Hc.
  destruct (construct_extends mode x h h' v Hc) as (l & -> & _).
  apply kinds_preserved_app.
Qed.

#[local] Hint Resolve kind_stable_ret kind_stable_throw kind_stable_undefined
  kind_stable_lift kind_stable_bind kind_stable_make_shared kind_stable_deref
  kind_stable_construct : kinds.

Lemma bind_ret_r {A : Type} (m : St heap A) (h : heap) :
  (x <- m ;; ret x) h = m h.
Proof. unfold bind, ret. destruct (m h) as [[a h']| |]; reflexivity. Qed.

(** A cell read at type [k] and then overwritten by an object of type [k]
    keeps its type, whatever is decided in between from the value read. *)
Lemma kind_stable_deref_put {A : Type} (k : kind) (p : option addr)
    (f : ctype k -> St heap A) :
  (forall (v : ctype k) (h : heap),
      f v h = UB \/
      exists (v' : ctype k) (g : unit -> St heap A),
        f v h = (u <- put p (inject k v') ;; g u) h /\
        forall u, stable (g u)) ->
  stable (v <- deref k p ;; f v).
Proof.
  intros Hf h h' r Hrun.
  apply bind_Ok_inv in Hrun as (v & h1 & Hd & Hrun).
  apply deref_Ok in Hd as [-> (a & -> & Ha)].
  destruct (Hf v h) as [Hub|(v' & g & Hput & Hg)].
  - rewrite Hub in Hrun. discriminate Hrun.
  - rewrite Hput in Hrun.
    apply bind_Ok_inv in Hrun as (u & h2 & Hp & Hrun).
    apply put_Ok_inv in Hp as (a' & [= <-] & _ & ->).
    eapply kinds_preserved_trans; [|eapply Hg, Hrun].
    eapply kinds_preserved_insert; [exact Ha|].
    rewrite !kind_of_inject. reflexivity.
Qed.

Lemma kind_stable_assign (r : lvalue) (v : boxed) : stable (assign r v).
Proof.
  destruct r as [p key|p i|p]; unfold assign.
  - apply (kind_stable_deref_put KDict). intros m h.
    destruct (m !! key); [right|left; reflexivity].
    exists (<[key := v]> m), ret. split; [|auto with kinds].
    symmetry. apply bind_ret_r.
  - apply (kind_stable_deref_put KArray). intros l h.
    destruct (decide (i < length l)); [right|left; reflexivity].
    exists (<[i := v]> l), ret. split; [|auto with kinds].
    symmetry. apply bind_ret_r.
  - apply (kind_stable_deref_put KBoxed). intros b h. right.
    exists v, ret. split; [|auto with kinds].
    symmetry. apply bind_ret_r.
Qed.

Lemma kind_stable_boxed_index_key (b : boxed) (key : string) :
  stable (boxed_index_key b key).
Proof.
  unfold boxed_index_key.
  apply (kind_stable_deref_put KDict). intros m h. right.
  exists (dict_index_mut m key), (fun _ => ret (at_key b key)).
  split; [reflexivity|auto with kinds].
Qed.

Lemma kind_stable_boxed_index (mode : build) (b : boxed) (index : Z) :
  stable (boxed_index mode b index).
Proof. unfold boxed_index. auto 6 with kinds. Qed.

Lemma kind_stable_unbox_assign (k : kind) (b : boxed) (v : ctype k) :
  stable (unbox_assign k b v).
Proof.
  unfold unbox_assign.
  apply (kind_stable_deref_put k). intros v0 h. right.
  exists v, ret. split; [|auto with kinds].
  symmetry. apply bind_ret_r.
Qed.

Lemma kind_stable_boxed_r_assign (mode : build) (r : boxed_r) (x : native) :
  stable (boxed_r_assign mode r x).
Proof.
  unfold boxed_r_assign.
  pose proof kind_stable_assign. auto 8 with kinds.
Qed.

#[local] Hint Resolve kind_stable_assign kind_stable_boxed_index_key
  kind_stable_boxed_index kind_stable_unbox_assign kind_stable_boxed_r_assign
  : kinds.

Lemma kind_stable_step (mode : build) (o : op) : stable (step mode o).
Proof.
  destruct o; simpl; unfold box, boxed_r_new; auto 6 with kinds.
Qed.

Lemma kind_stable_run (mode : build) (os : list op) : stable (run mode os).
Proof.
  induction os as [|o os IH]; simpl.
  - apply kind_stable_ret.
  - apply kind_stable_bind; [apply kind_stable_step|intros _; exact IH].
Qed.

(** After an assignment through a reference, the reference reads as the
    assigned Value. *)
Lemma assign_load (r : lvalue) (v : boxed) (h h' : heap) (u : unit) :
  assign r v h = Ok (u, h') -> load r h' = Ok (v, h').
Proof.
  destruct r as [p key|p i|p]; unfold assign, load; intros Hrun;
    apply bind_Ok_inv in Hrun as (x & h1 & Hd & Hrun);
    apply deref_Ok in Hd as [-> (a & -> & Ha)]; simpl in Ha, x; cbn [ctype] in Hrun.
  - destruct (x !! key) eqn:Hk; [|discriminate Hrun].
    apply put_Ok_inv in Hrun as (a' & [= <-] & Hlt & ->).
    apply (boxed_index_key_const_Some a (<[key := v]> x)).
    + apply list_lookup_insert_eq, Hlt.
    + apply lookup_insert_eq.
  - destruct (decide (i < length x)) as [Hi|]; [|discriminate Hrun].
    apply put_Ok_inv in Hrun as (a' & [= <-] & Hlt & ->).
    assert (<[a := PArray (<[i := v]> x)]> h !! a = Some (PArray (<[i := v]> x)))
      as Hl by (apply list_lookup_insert_eq, Hlt).
    rewrite (bind_Ok _ _ _ _ _ (deref_lookup KArray (<[i := v]> x) a _ Hl)).
    unfold lift, deque_subscript. rewrite Nat2Z.id.
    rewrite list_lookup_insert_eq by exact Hi. reflexivity.
  - apply put_Ok_inv in Hrun as (a' & [= <-] & Hlt & ->).
    apply (deref_lookup KBoxed v). apply list_lookup_insert_eq, Hlt.
Qed.

(** C4, as amended: the object a Value was constructed with never changes
    type: a program of header operations, in either build, leaves every cell of
    the store with the type it had.  A Value itself is re-pointed by the
    assignment of [boxed] through any mutable reference to it, be it an
    element, an entry or a slot: the reference then reads as the assigned
    Value. *)
Theorem payload_kind_stable (mode : build) (os : list op) (h h' : heap)
    (a : addr) (k : kind)
    (Hk : cell_kind h a = Some k)
    (Hrun : run mode os h = Ok (tt, h')) :
  cell_kind h' a = Some k /\
  (forall (r : lvalue) (v : boxed) (h2 : heap),
      assign r v h' = Ok (tt, h2) ->
      load r h2 = Ok (v, h2) /\ value_kind h2 r = holds h2 v /\
      cell_kind h2 a = Some k).
Proof.
  pose proof (kind_stable_run mode os h h' tt Hrun a k Hk) as Hk'.
  split; [exact Hk'|].
  intros r v h2 Hassign.
  pose proof (assign_load r v h' h2 tt Hassign) as Hload.
  repeat split.
  - exact Hload.
  - unfold value_kind, eval. rewrite Hload. reflexivity.
  - exact (kind_stable_assign r v h' h2 tt Hassign a k Hk').
Qed.


(** ** Calls *)

Context {C : Callables closure thunk}.

Lemma boxed_call_lookup (p : addr) (f : closure) (arg : boxed) (h : heap) :
  h !! p = Some (PFn f) ->
  boxed_call (Some p) arg h = apply_fn f arg h.
Proof.
  intros Hp. unfold boxed_call.
  rewrite (bind_Ok _ _ _ _ _ (deref_lookup KFn f p h Hp)). reflexivity.
Qed.

Lemma boxed_call_eff_lookup (p : addr) (f : thunk) (h : heap) :
  h !! p = Some (PEffFn f) ->
  boxed_call_eff (Some p) h = apply_eff f h.
Proof.
  intros Hp. unfold boxed_call_eff.
  rewrite (bind_Ok _ _ _ _ _ (deref_lookup KEffFn f p h Hp)). reflexivity.
Qed.

(** Invoking the Value just constructed from [f] runs [f]. *)
Lemma boxed_call_fn (mode : build) (f : closure) (arg : boxed) (h : heap) :
  (b <- construct mode (of_fn f) ;; boxed_call b arg) h
  = apply_fn f arg (h ++ [PFn f]).
Proof.
  rewrite (bind_Ok _ _ h (h ++ [PFn f]) (Some (length h))) by reflexivity.
  apply boxed_call_lookup, list_lookup_middle. reflexivity.
Qed.

(** Calls through a forward reference are calls of the Value in its slot. *)
Lemma boxed_r_call_read (r : boxed_r) (b arg : boxed) (h : heap) :
  boxed_r_read r h = Ok (b, h) ->
  boxed_r_call r arg h = boxed_call b arg h.
Proof.
  intros Hb. unfold boxed_r_call, boxed_call.
  rewrite (bind_Ok _ _ _ _ _ Hb). reflexivity.
Qed.

Lemma boxed_r_call_eff_read (r : boxed_r) (b : boxed) (h : heap) :
  boxed_r_read r h = Ok (b, h) ->
  boxed_r_call_eff r h = boxed_call_eff b h.
Proof.
  intros Hb. unfold boxed_r_call_eff, boxed_call_eff.
  rewrite (bind_Ok _ _ _ _ _ Hb). reflexivity.
Qed.

(** C10: a copy of a forward reference holds the pointer to the same slot.
    An assignment through [r] is what a later read or call through the copy
    sees, and an assignment through the copy is what a later read or call
    through [r] sees. *)
Theorem boxed_r_copy_shares_slot (mode : build) (r : boxed_r) (x : native)
    (h h1 : heap) (old v : boxed)
    (Hr : deref KBoxed (slot r) h = Ok (old, h))
    (Hv : construct mode x h = Ok (v, h1)) :
  slot (boxed_r_copy r) = slot r /\
  eval (boxed_r_assign mode r x ;; boxed_r_read (boxed_r_copy r)) h = Ok v /\
  eval (boxed_r_assign mode (boxed_r_copy r) x ;; boxed_r_read r) h = Ok v /\
  (forall arg : boxed,
      (boxed_r_assign mode r x ;; boxed_r_call (boxed_r_copy r) arg) h
      = (boxed_r_assign mode r x ;; boxed_call v arg) h) /\
  (forall arg : boxed,
      (boxed_r_assign mode (boxed_r_copy r) x ;; boxed_r_call r arg) h
      = (boxed_r_assign mode (boxed_r_copy r) x ;; boxed_call v arg) h) /\
  (boxed_r_assign mode r x ;; boxed_r_call_eff (boxed_r_copy r)) h
  = (boxed_r_assign mode r x ;; boxed_call_eff v) h /\
  (boxed_r_assign mode (boxed_r_copy r) x ;; boxed_r_call_eff r) h
  = (boxed_r_assign mode (boxed_r_copy r) x ;; boxed_call_eff v) h.
Proof.
  destruct (boxed_r_assign_then_read mode r x h h1 old v Hr Hv)
    as (h' & Hassign & Hread).
  pose proof (boxed_r_copy_eq r) as Hc.
  assert (deref KBoxed (slot (boxed_r_copy r)) h = Ok (old, h)) as Hr'
    by (rewrite Hc; exact Hr).
  destruct (boxed_r_assign_then_read mode (boxed_r_copy r) x h h1 old v Hr' Hv)
    as (h'' & Hassign' & Hread').
  assert (boxed_r_read r h'' = Ok (v, h'')) as Hread_r
    by (rewrite <- Hc; exact Hread').
  assert (boxed_r_read (boxed_r_copy r) h' = Ok (v, h')) as Hread_c
    by (rewrite Hc; exact Hread).
  split; [reflexivity|]. split; [|split; [|split; [|split; [|split]]]].
  - rewrite (eval_bind _ _ _ _ _ Hassign). unfold eval. rewrite Hread_c. reflexivity.
  - rewrite (eval_bind _ _ _ _ _ Hassign'). unfold eval. rewrite Hread_r. reflexivity.
  - intros arg. rewrite !(bind_Ok _ _ _ _ _ Hassign).
    apply boxed_r_call_read, Hread_c.
  - intros arg. rewrite !(bind_Ok _ _ _ _ _ Hassign').
    apply boxed_r_call_read, Hread_r.
  - rewrite !(bind_Ok _ _ _ _ _ Hassign). apply boxed_r_call_eff_read, Hread_c.
  - rewrite !(bind_Ok _ _ _ _ _ Hassign'). apply boxed_r_call_eff_read, Hread_r.
Qed.


End Facts.

(** ** The narrowing and identity overloads of [unbox] *)

(** C8, as amended: [unbox<int>] of a [std::size_t] returns a [long long],
    a signed 64-bit integer, not the 32-bit [int] of the integer payload: a
    value below 2^63 is returned as it is, whatever its size, and a larger one
    wraps to [value - 2^64].  [unbox] of a native scalar is the identity. *)
Theorem unbox_size_t_long_long (value : Z) (Hv : size_t_range value) :
  long_long_range (unbox_size_t value) /\
  ((value < 2 ^ 63)%Z -> unbox_size_t value = value) /\
  ((2 ^ 63 <= value)%Z -> unbox_size_t value = (value - 2 ^ 64)%Z) /\
  (forall (T : Type) (v : T), unbox_scalar v = v).
Proof.
  unfold size_t_range in Hv. unfold unbox_size_t. repeat split.
  - apply to_long_long_range.
  - apply to_long_long_range.
  - intros Hlt. apply to_long_long_small. lia.
  - intros Hge. apply to_long_long_large. lia.
Qed.

Lemma unbox_size_t_long_long_witness :
  size_t_range 4294967296 /\
  long_long_range (unbox_size_t 4294967296) /\
  ((4294967296 < 2 ^ 63)%Z -> unbox_size_t 4294967296 = 4294967296%Z) /\
  ((2 ^ 63 <= 4294967296)%Z -> unbox_size_t 4294967296 = (4294967296 - 2 ^ 64)%Z) /\
  (forall (T : Type) (v : T), unbox_scalar v = v).
Proof.
  assert (size_t_range 4294967296) as H by (unfold size_t_range; lia).
  split; [exact H|]. exact (unbox_size_t_long_long 4294967296 H).
Defined.

(** C8, as stated, fails: the [std::size_t] 2^32 is returned unchanged, and
    is outside the range of the 32-bit [int]. *)
Lemma unbox_size_t_exceeds_int :
  unbox_size_t 4294967296 = 4294967296%Z /\
  ~ int_range (unbox_size_t 4294967296).
Proof.
  split; [reflexivity|].
  unfold int_range, INT_MIN, INT_MAX.
  change (unbox_size_t 4294967296) with 4294967296%Z. lia.
Qed.

(** ** Closed instances *)

Lemma boxed_wide_integer_witness :
  (@of_long test_fn test_thunk 4294967298 = of_long 4294967298 /\
   long_range 4294967298 \/
   @of_long test_fn test_thunk 4294967298 = of_ulong 4294967298 /\
   ulong_range 4294967298) /\
  (int_range 4294967298 ->
   forall mode : build,
     eval (b <- construct mode (of_long 4294967298) ;; unbox KInt b) ([] : test_heap)
     = Ok 4294967298%Z) /\
  (~ int_range 4294967298 ->
   construct Debug (of_long 4294967298) ([] : test_heap)
     = Throw (runtime_error "integer out of range") /\
   eval (b <- construct Release (of_long 4294967298) ;; unbox KInt b) ([] : test_heap)
     = Ok (reinterpret_signed32 (4294967298 mod 2 ^ 32))).
Proof.
  assert (@of_long test_fn test_thunk 4294967298 = of_long 4294967298 /\
          long_range 4294967298 \/
          @of_long test_fn test_thunk 4294967298 = of_ulong 4294967298 /\
          ulong_range 4294967298) as H.
  { left. split; [reflexivity|]. unfold long_range. lia. }
  split; [exact H|].
  exact (boxed_wide_integer 4294967298 (of_long 4294967298) [] H).
Defined.

(** The truncation of the witness: 2^32 + 2 is stored as 2. *)
Example boxed_long_release_truncates :
  eval (b <- construct Release (of_long 4294967298) ;; unbox KInt b) ([] : test_heap)
  = Ok 2%Z.
Proof. reflexivity. Qed.

Example boxed_ulong_debug_throws :
  construct Debug (of_ulong 2147483648) ([] : test_heap)
  = Throw (runtime_error "integer out of range").
Proof. reflexivity. Qed.

Example boxed_ulong_release_wraps_negative :
  eval (b <- construct Release (of_ulong 2147483648) ;; unbox KInt b) ([] : test_heap)
  = Ok (-2147483648)%Z.
Proof. reflexivity. Qed.

(** ** Calling the test program's function *)

(** [add_one] applied to the Value [n], when [n + 1] is an [int]: the new
    Value [n + 1]. *)
Lemma add_one_body_run (n : Z) (a : addr) (h : test_heap) :
  h !! a = Some (PInt n) ->
  int_range (n + 1) ->
  add_one_body (Some a) h = Ok (Some (length h), h ++ [PInt (n + 1)]).
Proof.
  intros Ha Hn. unfold add_one_body, unbox.
  rewrite (bind_Ok _ _ _ _ _ (deref_lookup KInt n a h Ha)).
  apply in_int_range_spec in Hn. rewrite Hn. reflexivity.
Qed.

Lemma call_add_one (mode : build) (n : Z) (h : test_heap) :
  int_range (n + 1) ->
  eval (f <- construct mode (of_fn add_one) ;;
        a <- construct mode (of_int n) ;;
        r <- boxed_call f a ;;
        unbox KInt r) h = Ok (n + 1)%Z.
Proof.
  intros Hn.
  set (h1 := h ++ [PFn add_one]).
  set (h2 := h1 ++ [PInt n]).
  rewrite (eval_bind _ _ h h1 (Some (length h))) by reflexivity.
  rewrite (eval_bind _ _ h1 h2 (Some (length h1))) by reflexivity.
  assert (h2 !! length h = Some (PFn add_one)) as Hf.
  { unfold h2, h1. rewrite <- app_assoc. apply list_lookup_middle. reflexivity. }
  assert (h2 !! length h1 = Some (PInt n)) as Ha.
  { unfold h2. apply list_lookup_middle. reflexivity. }
  assert (boxed_call (Some (length h)) (Some (length h1)) h2
          = Ok (Some (length h2), h2 ++ [PInt (n + 1)])) as Hcall.
  { rewrite (boxed_call_lookup _ add_one _ _ Hf). simpl.
    apply add_one_body_run; assumption. }
  rewrite (eval_bind _ _ _ _ _ Hcall).
  unfold eval, unbox.
  rewrite (deref_lookup KInt (n + 1)%Z (length h2) (h2 ++ [PInt (n + 1)]))
    by (apply list_lookup_middle; reflexivity).
  reflexivity.
Qed.

(** C7: in every program, invoking the Value constructed from a callable
    [f] with the argument [a] runs [f] on [a], and so does invoking any Value
    that holds [f].  In the test program, the Value constructed from the
    callable that adds 1, invoked with the Value 41, returns the Value 42. *)
Theorem boxed_call_runs_function :
  (forall (closure thunk : Type) (C : Callables closure thunk) (mode : build)
          (f : closure) (a : boxed) (h : list (payload closure thunk)),
      (b <- construct mode (of_fn f) ;; boxed_call b a) h
      = apply_fn f a (h ++ [PFn f])) /\
  (forall (closure thunk : Type) (C : Callables closure thunk)
          (f : closure) (p : addr) (a : boxed) (h : list (payload closure thunk)),
      h !! p = Some (PFn f) -> boxed_call (Some p) a h = apply_fn f a h) /\
  (forall (mode : build) (h : test_heap),
      eval (f <- construct mode (of_fn add_one) ;;
            a <- construct mode (of_int 41) ;;
            r <- boxed_call f a ;;
            unbox KInt r) h = Ok 42%Z).
Proof.
  split; [|split].
  - intros closure thunk C mode f a h. apply boxed_call_fn.
  - intros closure thunk C f p a h Hp. apply boxed_call_lookup, Hp.
  - intros mode h. apply (call_add_one mode 41 h).
    unfold int_range, INT_MIN, INT_MAX. lia.
Qed.

(** At [INT_MAX] the addition of the callable overflows. *)
Example call_add_one_overflow :
  eval (f <- construct Debug (of_fn add_one) ;;
        a <- construct Debug (of_int INT_MAX) ;;
        boxed_call f a) ([] : test_heap) = UB.
Proof. reflexivity. Qed.

(** ** A Value re-pointed without a forward reference *)

(** C4, as stated, fails: the Value that is element 0 of a sequence holds
    an [int]; after an assignment through the reference that the mutable
    [operator[]] returns, the same Value holds a [bool].  No forward reference
    exists in this program. *)
Lemma boxed_assign_changes_kind :
  eval (e <- boxed_int 1 ;;
        a <- boxed_array [e] ;;
        r <- boxed_index Debug a 0 ;;
        k1 <- observe_kind r ;;
        t <- boxed_bool true ;;
        assign r t ;;
        k2 <- observe_kind r ;;
        ret (r, k1, k2)) ([] : test_heap)
  = Ok (at_index (Some 1) 0, Some KInt, Some KBool).
Proof. vm_compute. reflexivity. Qed.

Lemma payload_kind_stable_witness :
  cell_kind ([PInt 1; PArray [Some 0]] : test_heap) 0 = Some KInt /\
  run Debug [op_construct (of_bool true); op_assign (at_index (Some 1) 0) (Some 2)]
    ([PInt 1; PArray [Some 0]] : test_heap)
    = Ok (tt, [PInt 1; PArray [Some 2]; PBool true]) /\
  cell_kind ([PInt 1; PArray [Some 2]; PBool true] : test_heap) 0 = Some KInt /\
  (forall (r : lvalue) (v : boxed) (h2 : test_heap),
      assign r v [PInt 1; PArray [Some 2]; PBool true] = Ok (tt, h2) ->
      load r h2 = Ok (v, h2) /\ value_kind h2 r = holds h2 v /\
      cell_kind h2 0 = Some KInt).
Proof.
  assert (cell_kind ([PInt 1; PArray [Some 0]] : test_heap) 0 = Some KInt) as Hk
    by reflexivity.
  assert (run Debug
            [op_construct (of_bool true); op_assign (at_index (Some 1) 0) (Some 2)]
            ([PInt 1; PArray [Some 0]] : test_heap)
          = Ok (tt, [PInt 1; PArray [Some 2]; PBool true])) as Hrun
    by (vm_compute; reflexivity).
  split; [exact Hk|]. split; [exact Hrun|].
  exact (payload_kind_stable Debug _ _ _ 0 KInt Hk Hrun).
Defined.

(** ** A forward reference assigned and read *)

Lemma boxed_r_assign_read_witness :
  deref KBoxed (slot (mk_boxed_r (Some 0))) ([PBoxed None] : test_heap)
    = Ok (None, [PBoxed None]) /\
  construct Debug (of_int 7) ([PBoxed None] : test_heap)
    = Ok (Some 1, [PBoxed None; PInt 7]) /\
  exists h' : test_heap,
    boxed_r_assign Debug (mk_boxed_r (Some 0)) (of_int 7) [PBoxed None]
      = Ok (mk_boxed_r (Some 0), h') /\
    boxed_r_read (mk_boxed_r (Some 0)) h' = Ok (Some 1, h') /\
    (forall a : addr, Some a <> Some 0 -> h' !! a = [PBoxed None; PInt 7] !! a) /\
    (forall k : kind,
        Some 1 <> Some 0 ->
        eval (unbox k (Some 1)) h' = eval (unbox k (Some 1)) [PBoxed None; PInt 7]) /\
    holds h' (Some 0) = Some KBoxed /\
    length h' = 2.
Proof.
  split; [reflexivity|]. split; [reflexivity|].
  exact (boxed_r_assign_read Debug (mk_boxed_r (Some 0)) (of_int 7)
           ([PBoxed None] : test_heap) [PBoxed None; PInt 7] None (Some 1)
           eq_refl eq_refl).
Defined.

Lemma boxed_r_copy_shares_slot_witness :
  eval (boxed_r_assign Release (mk_boxed_r (Some 0)) (of_fn add_one) ;;
        boxed_r_read (boxed_r_copy (mk_boxed_r (Some 0)))) ([PBoxed None] : test_heap)
    = Ok (Some 1) /\
  eval (boxed_r_assign Release (boxed_r_copy (mk_boxed_r (Some 0))) (of_fn add_one) ;;
        boxed_r_read (mk_boxed_r (Some 0))) ([PBoxed None] : test_heap)
    = Ok (Some 1).
Proof.
  pose proof (boxed_r_copy_shares_slot Release (mk_boxed_r (Some 0)) (of_fn add_one)
                ([PBoxed None] : test_heap) [PBoxed None; PFn add_one] None (Some 1)
                eq_refl eq_refl) as (_ & H1 & H2 & _).
  split; [exact H1|exact H2].
Defined.

(** The assigned function, called through the copy. *)
Example call_through_copy :
  eval (r <- boxed_r_new ;;
        boxed_r_assign Release r (of_fn add_one) ;;
        a <- boxed_int 41 ;;
        v <- boxed_r_call (boxed_r_copy r) a ;;
        unbox KInt v) ([] : test_heap) = Ok 42%Z.
Proof. vm_compute. reflexivity. Qed.

(** * Further properties of the header *)

Section Extras.

Context {closure thunk : Type}.

Local Abbreviation heap := (list (payload closure thunk)).

(** ** Unchecked reinterpretation *)

Lemma holds_lookup (h : heap) (b : boxed) (k : kind) :
  holds h b = Some k <->
  exists a o, b = Some a /\ h !! a = Some o /\ kind_of o = k.
Proof.
  unfold holds, cell_kind. split.
  - destruct b as [a|]; [|discriminate].
    destruct (h !! a) as [o|] eqn:Ha; [|discriminate].
    simpl. intros [= <-]. exists a, o. auto.
  - intros (a & o & -> & -> & <-). reflexivity.
Qed.

Lemma project_kind_of (k : kind) (o : payload closure thunk) :
  is_Some (project k o) <-> kind_of o = k.
Proof.
  split.
  - intros [v Hv]. apply project_Some in Hv as ->. apply kind_of_inject.
  - intros <-. destruct o; simpl; eauto.
Qed.

(** A cast to [k] of a Value that does not hold a [k] is undefined. *)
Lemma deref_not_held (k : kind) (b : boxed) (h : heap) :
  holds h b <> Some k -> deref k b h = UB.
Proof.
  intros Hk. unfold deref, bind, get.
  destruct b as [a|]; [|reflexivity].
  destruct (h !! a) as [o|] eqn:Ha; [|reflexivity].
  destruct (project k o) as [v|] eqn:Hp; [|reflexivity].
  exfalso. apply Hk. apply holds_lookup. exists a, o.
  repeat split; [exact Ha|]. apply project_kind_of. eauto.
Qed.

Lemma deref_held (k : kind) (b : boxed) (h : heap) :
  holds h b = Some k -> exists v, deref k b h = Ok (v, h).
Proof.
  intros Hk. apply holds_lookup in Hk as (a & o & -> & Ha & Hko).
  apply project_kind_of in Hko as [v Hv].
  exists v. apply deref_Ok. split; [reflexivity|].
  exists a. split; [reflexivity|]. apply project_Some in Hv as <-. exact Ha.
Qed.

(** X1: [unbox<T>] performs no check: it returns the payload, leaving the
    store as it is, exactly when the Value holds a [T]; on the empty Value and
    on a Value that holds another type it is undefined, and it never throws. *)
Theorem unbox_defined_iff_held (k : kind) (b : boxed) (h : heap) :
  ((exists v, unbox k b h = Ok (v, h)) <-> holds h b = Some k) /\
  (unbox k b h = UB <-> holds h b <> Some k) /\
  (forall e, unbox k b h <> Throw e) /\
  (forall v h', unbox k b h = Ok (v, h') -> h' = h).
Proof.
  unfold unbox.
  destruct (decide (holds h b = Some k)) as [Hk|Hk].
  - destruct (deref_held k b h Hk) as [v Hv]. repeat split.
    + intros _. exact Hk.
    + intros _. eauto.
    + rewrite Hv. discriminate.
    + intros Hn. contradiction.
    + rewrite Hv. discriminate.
    + intros v' h'. rewrite Hv. intros [= _ <-]. reflexivity.
  - pose proof (deref_not_held k b h Hk) as Hub. repeat split.
    + intros [v Hv]. rewrite Hub in Hv. discriminate.
    + intros Hk'. contradiction.
    + intros _. exact Hk.
    + intros _. exact Hub.
    + rewrite Hub. discriminate.
    + intros v h'. rewrite Hub. discriminate.
Qed.

(** X2: [box<T>] followed by [unbox<T>] gives back the payload, for every
    payload type, function, thunk and nested [boxed] included; the new Value
    is distinct from every Value of the store, holds a [T], and what the
    existing Values unbox to is unchanged. *)
Theorem box_unbox_frame (k : kind) (v : ctype k) (h : heap) :
  eval (b <- box k v ;; unbox k b) h = Ok v /\
  (forall b0 : boxed, is_Some (holds h b0) -> eval (box k v) h <> Ok b0) /\
  (forall h' b, box k v h = Ok (b, h') -> holds h' b = Some k) /\
  (forall (k0 : kind) (b0 : boxed) (v0 : ctype k0),
      unbox k0 b0 h = Ok (v0, h) ->
      eval (box k v ;; unbox k0 b0) h = Ok v0).
Proof.
  repeat split.
  - unfold eval, box. rewrite unbox_make_shared. reflexivity.
  - intros b0 [k1 Hk1]. apply holds_lookup in Hk1 as (a & o & -> & Ha & _).
    unfold eval, box, make_shared. intros [= Heq].
    apply lookup_lt_Some in Ha. lia.
  - intros h' b [= <- <-]. unfold holds, cell_kind.
    rewrite list_lookup_middle by reflexivity. simpl. f_equal. apply kind_of_inject.
  - intros k0 b0 v0 Hb0. apply deref_Ok in Hb0 as [_ (a & -> & Ha)].
    rewrite (eval_bind _ _ h (h ++ [inject k v]) (Some (length h))) by reflexivity.
    unfold eval, unbox. rewrite (deref_lookup k0 v0 a); [reflexivity|].
    apply lookup_app_l_Some, Ha.
Qed.

(** X3: a successful construction, from any argument and in either build,
    adds at most one cell to the store and leaves every existing cell as it
    is, so every existing Value unboxes as before. *)
Theorem construct_frame (mode : build) (x : native) (h h1 : heap) (v : boxed)
    (k0 : kind) (b0 : boxed) (v0 : ctype k0)
    (Hc : construct mode x h = Ok (v, h1))
    (Hb : unbox k0 b0 h = Ok (v0, h)) :
  unbox k0 b0 h1 = Ok (v0, h1) /\
  (forall a o, h !! a = Some o -> h1 !! a = Some o) /\
  length h <= length h1 <= length h + 1.
Proof.
  assert (exists l, h1 = h ++ l /\ length l <= 1) as (l & -> & Hl).
  { destruct x; simpl in Hc;
      unfold boxed_null, boxed_int, boxed_long, boxed_ulong, boxed_double,
        boxed_bool, boxed_c_str, boxed_string, boxed_array, boxed_dict,
        boxed_fn, boxed_eff_fn, bind, make_shared, ret, throw in Hc;
      try (destruct (debug mode && _); [discriminate Hc|]);
      injection Hc as <- <-;
      first [ by eexists [_] | exists []; rewrite app_nil_r; split; [reflexivity|simpl; lia] ]. }
  repeat split.
  - apply deref_Ok in Hb as [_ (a & -> & Ha)].
    apply (deref_lookup k0 v0 a). apply lookup_app_l_Some, Ha.
  - intros a o Ha. apply lookup_app_l_Some, Ha.
  - rewrite length_app. lia.
  - rewrite length_app. lia.
Qed.

(** ** Text from a C string *)

Lemma c_str_prefix (s : string) : exists rest, s = (c_str s ++ rest)%string.
Proof.
  induction s as [|c s [rest IH]]; simpl.
  - exists EmptyString. reflexivity.
  - destruct (Ascii.eqb c Ascii.zero).
    + exists (String c s). reflexivity.
    + exists rest. change (String c s = String c (c_str s ++ rest)%string).
      f_equal. exact IH.
Qed.

Lemma c_str_has_no_nul (s : string) (c : Ascii.ascii) :
  In c (list_ascii_of_string (c_str s)) -> c <> Ascii.zero.
Proof.
  induction s as [|c0 s IH]; simpl; [tauto|].
  destruct (Ascii.eqb_spec c0 Ascii.zero) as [->|Hne]; simpl; [tauto|].
  intros [<-|Hin]; [exact Hne|apply IH, Hin].
Qed.

(** X4: the Value constructed from a [const char s[]] holds the characters
    of [s] before its first NUL: a prefix of [s] that contains no NUL, and [s]
    itself when [s] contains none. *)
Theorem boxed_c_str_text (mode : build) (s : string) (h : heap) :
  exists t : string,
    eval (b <- construct mode (of_c_str s) ;; unbox KString b) h = Ok t /\
    (exists rest, s = (t ++ rest)%string) /\
    (forall c, In c (list_ascii_of_string t) -> c <> Ascii.zero) /\
    ((forall c, In c (list_ascii_of_string s) -> c <> Ascii.zero) -> t = s) /\
    (t <> s -> exists rest, s = (t ++ String Ascii.zero rest)%string).
Proof.
  exists (c_str s). repeat split.
  - exact (eval_unbox_fresh KString (c_str s) _ h eq_refl).
  - apply c_str_prefix.
  - apply c_str_has_no_nul.
  - apply c_str_no_nul.
  - induction s as [|c s IH]; simpl; [congruence|].
    destruct (Ascii.eqb_spec c Ascii.zero) as [->|Hne].
    + intros _. exists s. reflexivity.
    + intros Hd. destruct IH as [rest Hrest]; [congruence|].
      exists rest.
      change (String c s = String c (c_str s ++ String Ascii.zero rest)%string).
      f_equal. exact Hrest.
Qed.

(** ** Positional access *)

(** X5: positional access to a sequence Value of at most 2^63 elements with
    an [int] index.  Inside the bounds both builds return the element and
    leave the store as it is.  Outside them, negative indices included, the
    debug build throws [std::out_of_range] and the release build is
    undefined.  The mutable operator decides alike and returns a reference to
    the element. *)
Theorem boxed_index_bounds (mode : build) (a : addr) (l : array_t) (index : Z)
    (h : heap)
    (Ha : h !! a = Some (PArray l))
    (Hi : int_range index)
    (Hlen : (Z.of_nat (length l) <= 2 ^ 63)%Z) :
  ((0 <= index < Z.of_nat (length l))%Z ->
   exists v, l !! Z.to_nat index = Some v /\
     boxed_index_const mode (Some a) index h = Ok (v, h) /\
     boxed_index mode (Some a) index h
       = Ok (at_index (Some a) (Z.to_nat index), h) /\
     load (at_index (Some a) (Z.to_nat index)) h = Ok (v, h)) /\
  (~ (0 <= index < Z.of_nat (length l))%Z ->
   boxed_index_const mode (Some a) index h
     = (if debug mode then Throw out_of_range else UB) /\
   boxed_index mode (Some a) index h
     = (if debug mode then Throw out_of_range else UB)).
Proof.
  pose proof (deref_lookup KArray l a h Ha) as Hd.
  split.
  - intros Hin.
    destruct (l !! Z.to_nat index) as [v|] eqn:Hv;
      [|apply lookup_ge_None in Hv; lia].
    assert (element mode l index = Ok v) as He
      by (apply element_in_bounds; [lia|exact Hv]).
    exists v. repeat split.
    + unfold boxed_index_const. rewrite (bind_Ok _ _ _ _ _ Hd), He. reflexivity.
    + unfold boxed_index. rewrite (bind_Ok _ _ _ _ _ Hd), He.
      unfold bind, lift, ret, to_size_type. rewrite Z.mod_small by lia. reflexivity.
    + unfold load. rewrite (bind_Ok _ _ _ _ _ Hd).
      unfold lift, deque_subscript. rewrite Z2Nat.id by lia. rewrite Hv. reflexivity.
  - intros Hout.
    pose proof (element_out_of_bounds mode l index Hi Hlen Hout) as He.
    split.
    + unfold boxed_index_const. rewrite (bind_Ok _ _ _ _ _ Hd), He.
      destruct mode; reflexivity.
    + unfold boxed_index. rewrite (bind_Ok _ _ _ _ _ Hd), He.
      destruct mode; reflexivity.
Qed.

(** X6: the sequence Value constructed from a list [l]: [array_length] is
    the number of elements of [l], and the read at every position [i] of [l]
    that is an [int] is the [i]-th element of [l], in both builds. *)
Theorem boxed_array_elements (mode : build) (l : array_t) (i : nat) (v : boxed)
    (h : heap)
    (Hv : l !! i = Some v)
    (Hi : (Z.of_nat i <= INT_MAX)%Z) :
  eval (a <- construct mode (of_array l) ;; array_length a) h
    = Ok (Z.of_nat (length l)) /\
  eval (a <- construct mode (of_array l) ;; boxed_index_const mode a (Z.of_nat i)) h
    = Ok v /\
  eval (a <- construct mode (of_array l) ;;
        r <- boxed_index mode a (Z.of_nat i) ;; load r) h = Ok v.
Proof.
  set (h1 := h ++ [PArray l]).
  assert (construct mode (of_array l) h = Ok (Some (length h), h1)) as Hc
    by reflexivity.
  assert (h1 !! length h = Some (PArray l)) as Ha
    by (apply list_lookup_middle; reflexivity).
  pose proof (deref_lookup KArray l _ _ Ha) as Hd.
  assert (element mode l (Z.of_nat i) = Ok v) as He.
  { apply element_in_bounds; [unfold INT_MAX in Hi; lia|].
    rewrite Nat2Z.id. exact Hv. }
  repeat split; rewrite (eval_bind _ _ _ _ _ Hc).
  - unfold array_length, unbox. rewrite (eval_bind _ _ _ _ _ Hd). reflexivity.
  - unfold eval, boxed_index_const. rewrite (bind_Ok _ _ _ _ _ Hd), He. reflexivity.
  - unfold boxed_index. rewrite eval_bind_assoc, (eval_bind _ _ _ _ _ Hd), He.
    unfold eval, bind, lift, ret, load, to_size_type.
    unfold INT_MAX in Hi. rewrite Z.mod_small by lia.
    rewrite Nat2Z.id. unfold bind. rewrite Hd.
    unfold lift, deque_subscript. rewrite Nat2Z.id, Hv. reflexivity.
Qed.

(** X7: an assignment through the reference that the mutable [operator[]]
    returns for an in-bounds [int] index replaces that element and nothing
    else: the same position then reads as the assigned Value, every other
    position reads as before, and the length is unchanged. *)
Theorem boxed_index_assign (mode : build) (a : addr) (l : array_t) (i : nat)
    (v : boxed) (h : heap)
    (Ha : h !! a = Some (PArray l))
    (Hi : i < length l)
    (Hint : (Z.of_nat i <= INT_MAX)%Z) :
  exists h' : heap,
    (r <- boxed_index mode (Some a) (Z.of_nat i) ;; assign r v) h = Ok (tt, h') /\
    h' = <[a := PArray (<[i := v]> l)]> h /\
    boxed_index_const mode (Some a) (Z.of_nat i) h' = Ok (v, h') /\
    (forall (j : nat) (w : boxed),
        j <> i -> l !! j = Some w -> (Z.of_nat j <= INT_MAX)%Z ->
        boxed_index_const mode (Some a) (Z.of_nat j) h' = Ok (w, h')) /\
    array_length (Some a) h' = Ok (Z.of_nat (length l), h').
Proof.
  pose proof (deref_lookup KArray l a h Ha) as Hd.
  pose proof (lookup_lt_Some _ _ _ Ha) as Hlt.
  set (h' := <[a := PArray (<[i := v]> l)]> h).
  assert (h' !! a = Some (PArray (<[i := v]> l))) as Ha'
    by (apply list_lookup_insert_eq, Hlt).
  pose proof (deref_lookup KArray (<[i := v]> l) a h' Ha') as Hd'.
  destruct (lookup_lt_is_Some_2 l i Hi) as [w Hw].
  unfold INT_MAX in Hint.
  exists h'. repeat split.
  - unfold boxed_index.
    rewrite bind_assoc, (bind_Ok _ _ _ _ _ Hd).
    rewrite (element_in_bounds mode l (Z.of_nat i) w)
      by (lia || (rewrite Nat2Z.id; exact Hw)).
    unfold bind at 1. unfold lift, ret. unfold bind at 1.
    unfold to_size_type. rewrite Z.mod_small by lia. rewrite Nat2Z.id.
    unfold assign. rewrite (bind_Ok _ _ _ _ _ Hd).
    destruct (decide (i < length l)); [|contradiction].
    apply (put_lookup a _ _ h Ha).
  - unfold boxed_index_const. rewrite (bind_Ok _ _ _ _ _ Hd').
    rewrite (element_in_bounds mode _ (Z.of_nat i) v); [reflexivity|lia|].
    rewrite Nat2Z.id. apply list_lookup_insert_eq.
    exact Hi.
  - intros j w0 Hne Hj Hjint. unfold INT_MAX in Hjint.
    unfold boxed_index_const. rewrite (bind_Ok _ _ _ _ _ Hd').
    rewrite (element_in_bounds mode _ (Z.of_nat j) w0); [reflexivity|lia|].
    rewrite Nat2Z.id, list_lookup_insert_ne by (intros ->; contradiction).
    exact Hj.
  - unfold array_length, unbox. rewrite (bind_Ok _ _ _ _ _ Hd').
    unfold ret. rewrite length_insert. reflexivity.
Qed.


(** ** Writes through [unbox<T>(boxed&)] *)

(** X8: a write through the reference returned by the mutable [unbox<T>] on
    a Value that holds a [T] is read back by [unbox<T>], through that Value and
    through every copy of it, since copies share the payload; the Value still
    holds a [T], and every Value with another payload unboxes as before. *)
Theorem unbox_assign_shared (mode : build) (k : kind) (b : boxed)
    (old v : ctype k) (h : heap)
    (Hb : unbox k b h = Ok (old, h)) :
  exists h' : heap,
    unbox_assign k b v h = Ok (tt, h') /\
    unbox k b h' = Ok (v, h') /\
    eval (c <- construct mode (of_boxed b) ;; unbox_assign k b v ;; unbox k c) h
      = Ok v /\
    holds h' b = Some k /\
    length h' = length h /\
    (forall (k0 : kind) (b0 : boxed) (v0 : ctype k0),
        b0 <> b -> unbox k0 b0 h = Ok (v0, h) -> unbox k0 b0 h' = Ok (v0, h')).
Proof.
  pose proof Hb as Hb'.
  apply deref_Ok in Hb' as [_ (a & -> & Ha)].
  pose proof (lookup_lt_Some _ _ _ Ha) as Hlt.
  set (h' := <[a := inject k v]> h).
  assert (unbox_assign k (Some a) v h = Ok (tt, h')) as Hw.
  { unfold unbox_assign. rewrite (bind_Ok _ _ _ _ _ Hb).
    apply (put_lookup a _ _ h Ha). }
  assert (h' !! a = Some (inject k v)) as Ha'
    by (apply list_lookup_insert_eq, Hlt).
  pose proof (deref_lookup k v a h' Ha') as Hr.
  exists h'. repeat split.
  - exact Hw.
  - exact Hr.
  - rewrite (eval_bind _ _ h h (Some a)) by reflexivity.
    rewrite (eval_bind _ _ _ _ _ Hw). unfold eval, unbox. rewrite Hr. reflexivity.
  - unfold holds, cell_kind. rewrite Ha'. simpl. f_equal. apply kind_of_inject.
  - apply length_insert.
  - intros k0 b0 v0 Hne Hb0. apply deref_Ok in Hb0 as [_ (a0 & -> & Ha0)].
    apply (deref_lookup k0 v0 a0).
    unfold h'. rewrite list_lookup_insert_ne by congruence. exact Ha0.
Qed.

(** ** Integers from wide types *)

(** X9: whatever the build, the Value that a construction from a [long] or
    [unsigned long] [n] yields holds an [int] of the 32-bit range congruent to
    [n] modulo 2^32; in a debug build it holds [n] itself. *)
Theorem boxed_wide_holds_int (mode : build) (n : Z) (x : native) (h : heap)
    (v : Z)
    (Hx : x = of_long n /\ long_range n \/ x = of_ulong n /\ ulong_range n)
    (Hv : eval (b <- construct mode x ;; unbox KInt b) h = Ok v) :
  int_range v /\
  ((v - n) mod 2 ^ 32 = 0)%Z /\
  (mode = Debug -> v = n).
Proof.
  assert (v = static_cast_int n /\ (mode = Debug -> int_range n)) as [-> Hdebug].
  { destruct Hx as [[-> Hn]|[-> Hn]]; simpl in Hv.
    - unfold eval, bind, boxed_long, bind, make_shared in Hv.
      destruct (debug mode && _) eqn:Hchk; [discriminate Hv|].
      simpl in Hv. unfold unbox in Hv.
      rewrite (deref_lookup KInt (static_cast_int n) (length h)
                 (h ++ [PInt (static_cast_int n)])
                 (list_lookup_middle h [] _ _ eq_refl)) in Hv.
      injection Hv as <-. split; [reflexivity|].
      intros ->. simpl in Hchk. unfold int_range.
      apply orb_false_iff in Hchk as [H1 H2].
      apply Z.ltb_ge in H1. rewrite Z.gtb_ltb in H2. apply Z.ltb_ge in H2. lia.
    - unfold eval, bind, boxed_ulong, bind, make_shared in Hv.
      destruct (debug mode && _) eqn:Hchk; [discriminate Hv|].
      simpl in Hv. unfold unbox in Hv.
      rewrite (deref_lookup KInt (static_cast_int n) (length h)
                 (h ++ [PInt (static_cast_int n)])
                 (list_lookup_middle h [] _ _ eq_refl)) in Hv.
      injection Hv as <-. split; [reflexivity|].
      intros ->. simpl in Hchk. unfold int_range, INT_MIN, ulong_range in *.
      rewrite Z.gtb_ltb in Hchk. apply Z.ltb_ge in Hchk. lia. }
  split; [apply static_cast_int_range|]. split.
  - unfold static_cast_int.
    pose proof (Z.div_mod (n + 2 ^ 31) (2 ^ 32)) as Hdm.
    replace ((n + 2 ^ 31) mod 2 ^ 32 - 2 ^ 31 - n)%Z
      with (- ((n + 2 ^ 31) / 2 ^ 32) * 2 ^ 32)%Z by lia.
    apply Z_mod_mult.
  - intros Hm. apply static_cast_int_id, Hdebug, Hm.
Qed.

(** ** The size of a sequence as a number *)

(** X10: [unbox<int>(array_length(a))] of a sequence Value of fewer than
    2^63 elements is its number of elements, exactly: nothing is narrowed. *)
Theorem unbox_array_length (a : addr) (l : array_t) (h : heap)
    (Ha : h !! a = Some (PArray l))
    (Hlen : (Z.of_nat (length l) < 2 ^ 63)%Z) :
  eval (n <- array_length (Some a) ;; ret (unbox_size_t n)) h
    = Ok (Z.of_nat (length l)) /\
  size_t_range (Z.of_nat (length l)).
Proof.
  split.
  - unfold array_length, unbox.
    rewrite eval_bind_assoc, (eval_bind _ _ _ _ _ (deref_lookup KArray l a h Ha)).
    unfold eval, bind, ret, unbox_size_t. rewrite to_long_long_small by lia.
    reflexivity.
  - unfold size_t_range. lia.
Qed.


(** ** More on forward references *)

(** With a live slot, an assignment followed by a read is the construction
    of the operand, failures included. *)
Lemma boxed_r_assign_read_eval (mode : build) (r : boxed_r) (x : native)
    (h : heap) (old : boxed) :
  deref KBoxed (slot r) h = Ok (old, h) ->
  eval (boxed_r_assign mode r x ;; boxed_r_read r) h = eval (construct mode x) h.
Proof.
  intros Hr. destruct (construct mode x h) as [[v h1]|e|] eqn:Hc.
  - destruct (boxed_r_assign_then_read mode r x h h1 old v Hr Hc)
      as (h' & Hassign & Hread).
    rewrite (eval_bind _ _ _ _ _ Hassign).
    unfold eval. rewrite Hread, Hc. reflexivity.
  - unfold eval, bind.
    rewrite (boxed_r_assign_throw mode r x h old e Hr Hc), Hc. reflexivity.
  - unfold eval, bind, boxed_r_assign, bind. rewrite Hr, Hc. reflexivity.
Qed.

(** X11: two forward references with distinct live slots are independent:
    an assignment through one, from an operand whose construction succeeds,
    leaves what the other reads as unchanged. *)
Theorem boxed_r_independent (mode : build) (r1 r2 : boxed_r) (x : native)
    (h h1 : heap) (o1 o2 v : boxed)
    (H1 : deref KBoxed (slot r1) h = Ok (o1, h))
    (H2 : deref KBoxed (slot r2) h = Ok (o2, h))
    (Hne : slot r1 <> slot r2)
    (Hc : construct mode x h = Ok (v, h1)) :
  eval (boxed_r_assign mode r1 x ;; boxed_r_read r2) h = Ok o2 /\
  eval (boxed_r_assign mode r1 x ;; boxed_r_read r1) h = Ok v.
Proof.
  split.
  - destruct (boxed_r_assign_run mode r1 x h h1 o1 v H1 Hc) as (a & Hs & Ha & Hrun).
    destruct (construct_extends mode x h h1 v Hc) as (l & -> & _).
    apply deref_Ok in H2 as [_ (a2 & Hs2 & Ha2)].
    rewrite (eval_bind _ _ _ _ _ Hrun).
    unfold eval, boxed_r_read. rewrite Hs2.
    rewrite (deref_lookup KBoxed o2 a2); [reflexivity|].
    rewrite list_lookup_insert_ne by congruence.
    apply lookup_app_l_Some, Ha2.
  - rewrite (boxed_r_assign_read_eval mode r1 x h o1 H1).
    unfold eval. rewrite Hc. reflexivity.
Qed.

(** X12: a forward reference can be assigned again: with a live slot, after
    two assignments a read yields the Value constructed from the second
    operand, whatever the first one was; when a construction throws, so does
    the sequence. *)
Theorem boxed_r_assign_twice (mode : build) (r : boxed_r) (x1 x2 : native)
    (h : heap) (old : boxed)
    (Hr : deref KBoxed (slot r) h = Ok (old, h)) :
  eval (boxed_r_assign mode r x1 ;; boxed_r_assign mode r x2 ;; boxed_r_read r) h
  = eval (boxed_r_assign mode r x1 ;; construct mode x2) h.
Proof.
  destruct (construct mode x1 h) as [[v1 h1]|e|] eqn:Hc1.
  - destruct (boxed_r_assign_run mode r x1 h h1 old v1 Hr Hc1)
      as (a & Hs & Ha & Hrun).
    destruct (construct_extends mode x1 h h1 v1 Hc1) as (l & -> & _).
    rewrite !(eval_bind _ _ _ _ _ Hrun).
    apply (boxed_r_assign_read_eval mode r x2 _ v1).
    rewrite Hs. apply (deref_lookup KBoxed v1 a).
    apply list_lookup_insert_eq. rewrite length_app. lia.
  - unfold eval, bind.
    rewrite (boxed_r_assign_throw mode r x1 h old e Hr Hc1). reflexivity.
  - unfold eval, bind, boxed_r_assign, bind. rewrite Hr, Hc1. reflexivity.
Qed.

(** ** No dangling Values *)
















Context {C : Callables closure thunk}.

(** X13: a new forward reference is empty: it reads as the empty Value, and
    calling it, with or without an argument, before any assignment is
    undefined.  Its slot is a new cell: the existing Values unbox as before. *)
Theorem boxed_r_new_empty (h : heap) :
  eval (r <- boxed_r_new ;; boxed_r_read r) h = Ok undefined /\
  (forall arg : boxed, (r <- boxed_r_new ;; boxed_r_call r arg) h = UB) /\
  (r <- boxed_r_new ;; boxed_r_call_eff r) h = UB /\
  (forall (k0 : kind) (b0 : boxed) (v0 : ctype k0),
      unbox k0 b0 h = Ok (v0, h) ->
      eval (boxed_r_new ;; unbox k0 b0) h = Ok v0) /\
  (forall b0 : boxed,
      is_Some (holds h b0) -> eval (r <- boxed_r_new ;; ret (slot r)) h <> Ok b0).
Proof.
  pose proof (boxed_r_new_run h) as Hnew.
  assert ((h ++ [PBoxed None]) !! length h = Some (@PBoxed closure thunk None))
    as Hs by (apply list_lookup_middle; reflexivity).
  pose proof (deref_lookup KBoxed None _ _ Hs) as Hd.
  repeat split.
  - rewrite (eval_bind _ _ _ _ _ Hnew). unfold eval, boxed_r_read. simpl.
    rewrite Hd. reflexivity.
  - intros arg. rewrite (bind_Ok _ _ _ _ _ Hnew).
    unfold boxed_r_call. simpl. rewrite (bind_Ok _ _ _ _ _ Hd). reflexivity.
  - rewrite (bind_Ok _ _ _ _ _ Hnew).
    unfold boxed_r_call_eff. simpl. rewrite (bind_Ok _ _ _ _ _ Hd). reflexivity.
  - intros k0 b0 v0 Hb0. apply deref_Ok in Hb0 as [_ (a & -> & Ha)].
    rewrite (eval_bind _ _ _ _ _ Hnew).
    unfold eval, unbox. rewrite (deref_lookup k0 v0 a); [reflexivity|].
    apply lookup_app_l_Some, Ha.
  - intros b0 [k Hk]. apply holds_lookup in Hk as (a & o & -> & Ha & _).
    rewrite (eval_bind _ _ _ _ _ Hnew). unfold eval, ret. simpl.
    intros [= Heq]. apply lookup_lt_Some in Ha. lia.
Qed.

(** X14: once a function [f] is assigned to a forward reference with a live
    slot, calling the reference with an argument runs [f] on it; once a thunk
    [t] is assigned, calling the reference without argument runs [t].  A call
    of the other arity is undefined. *)
Theorem boxed_r_call_assigned (mode : build) (r : boxed_r) (f : closure)
    (t : thunk) (old : boxed) (h : heap)
    (Hr : deref KBoxed (slot r) h = Ok (old, h)) :
  (exists h' : heap,
      boxed_r_assign mode r (of_fn f) h = Ok (r, h') /\
      (forall arg : boxed, boxed_r_call r arg h' = apply_fn f arg h') /\
      boxed_r_call_eff r h' = UB) /\
  (exists h' : heap,
      boxed_r_assign mode r (of_eff_fn t) h = Ok (r, h') /\
      boxed_r_call_eff r h' = apply_eff t h' /\
      (forall arg : boxed, boxed_r_call r arg h' = UB)).
Proof.
  apply deref_Ok in Hr as Hr'. destruct Hr' as [_ (a & Hs & Ha)].
  pose proof (lookup_lt_Some _ _ _ Ha) as Hlt.
  split.
  - destruct (boxed_r_assign_then_read mode r (of_fn f) h (h ++ [PFn f]) old
                (Some (length h)) Hr eq_refl) as (h' & Hassign & Hread).
    destruct (boxed_r_assign_run mode r (of_fn f) h (h ++ [PFn f]) old
                (Some (length h)) Hr eq_refl) as (a' & Hs' & _ & Hrun).
    rewrite Hassign in Hrun. injection Hrun as ->.
    assert (a' = a) as -> by congruence.
    set (h' := <[a := PBoxed (Some (length h))]> (h ++ [PFn f])) in *.
    assert (h' !! length h = Some (PFn f)) as Hf.
    { unfold h'. rewrite list_lookup_insert_ne by lia.
      apply list_lookup_middle. reflexivity. }
    exists h'. repeat split.
    + exact Hassign.
    + intros arg. rewrite (boxed_r_call_read r _ arg h' Hread).
      apply boxed_call_lookup, Hf.
    + rewrite (boxed_r_call_eff_read r _ h' Hread).
      unfold boxed_call_eff, bind, deref, bind, get. rewrite Hf. reflexivity.
  - destruct (boxed_r_assign_then_read mode r (of_eff_fn t) h (h ++ [PEffFn t]) old
                (Some (length h)) Hr eq_refl) as (h' & Hassign & Hread).
    destruct (boxed_r_assign_run mode r (of_eff_fn t) h (h ++ [PEffFn t]) old
                (Some (length h)) Hr eq_refl) as (a' & Hs' & _ & Hrun).
    rewrite Hassign in Hrun. injection Hrun as ->.
    assert (a' = a) as -> by congruence.
    set (h' := <[a := PBoxed (Some (length h))]> (h ++ [PEffFn t])) in *.
    assert (h' !! length h = Some (PEffFn t)) as Hf.
    { unfold h'. rewrite list_lookup_insert_ne by lia.
      apply list_lookup_middle. reflexivity. }
    exists h'. repeat split.
    + exact Hassign.
    + rewrite (boxed_r_call_eff_read r _ h' Hread).
      apply boxed_call_eff_lookup, Hf.
    + intros arg. rewrite (boxed_r_call_read r _ arg h' Hread).
      unfold boxed_call, bind, deref, bind, get. rewrite Hf. reflexivity.
Qed.

(** ** Thunks *)

(** X15: invoking the Value constructed from a nullary callable [t] runs
    [t].  The two call operators do not check the payload: the unary call of a
    thunk Value and the nullary call of a function Value are undefined, in
    both builds. *)
Theorem boxed_call_eff_runs_thunk (mode : build) (t : thunk) (f : closure)
    (arg : boxed) (h : heap) :
  (b <- construct mode (of_eff_fn t) ;; boxed_call_eff b) h
    = apply_eff t (h ++ [PEffFn t]) /\
  (b <- construct mode (of_eff_fn t) ;; boxed_call b arg) h = UB /\
  (b <- construct mode (of_fn f) ;; boxed_call_eff b) h = UB /\
  (forall (p : addr) (h0 : heap),
      h0 !! p = Some (PEffFn t) -> boxed_call_eff (Some p) h0 = apply_eff t h0).
Proof.
  assert (forall o : payload closure thunk, (h ++ [o]) !! length h = Some o) as Hl
    by (intros o; apply list_lookup_middle; reflexivity).
  repeat split.
  - rewrite (bind_Ok _ _ h (h ++ [PEffFn t]) (Some (length h))) by reflexivity.
    apply boxed_call_eff_lookup, Hl.
  - rewrite (bind_Ok _ _ h (h ++ [PEffFn t]) (Some (length h))) by reflexivity.
    unfold boxed_call, bind, deref, bind, get. rewrite Hl. reflexivity.
  - rewrite (bind_Ok _ _ h (h ++ [PFn f]) (Some (length h))) by reflexivity.
    unfold boxed_call_eff, bind, deref, bind, get. rewrite Hl. reflexivity.
  - intros p h0 Hp. apply boxed_call_eff_lookup, Hp.
Qed.


End Extras.

(** ** Closed instances of the further properties *)

Lemma construct_frame_witness :
  unbox KInt (Some 0) ([PInt 5; PString "a"] : test_heap)
    = Ok (5%Z, [PInt 5; PString "a"]) /\
  unbox KInt (Some 0) ([PInt 5; PString "a"; PArray [Some 0]] : test_heap)
    = Ok (5%Z, [PInt 5; PString "a"; PArray [Some 0]]).
Proof.
  split; [reflexivity|].
  exact (proj1 (construct_frame Debug (of_array [Some 0])
                  ([PInt 5; PString "a"] : test_heap)
                  [PInt 5; PString "a"; PArray [Some 0]] (Some 2)
                  KInt (Some 0) 5%Z eq_refl eq_refl)).
Defined.

Lemma boxed_index_bounds_witness :
  boxed_index_const Debug (Some 0) (-1) ([PArray [None; None]] : test_heap)
    = Throw out_of_range /\
  boxed_index Debug (Some 0) (-1) ([PArray [None; None]] : test_heap)
    = Throw out_of_range.
Proof.
  assert (int_range (-1)) as Hi by (unfold int_range, INT_MIN, INT_MAX; lia).
  assert (Z.of_nat (length [@None nat; None]) <= 2 ^ 63)%Z as Hlen
    by (simpl; lia).
  assert (~ (0 <= -1 < Z.of_nat (length [@None nat; None]))%Z) as Hout by lia.
  exact (proj2 (boxed_index_bounds Debug 0 [None; None] (-1)
                  ([PArray [None; None]] : test_heap) eq_refl Hi Hlen) Hout).
Defined.

Lemma boxed_array_elements_witness :
  eval (a <- construct Release (of_array [None; Some 0]) ;; array_length a)
       ([PInt 1] : test_heap) = Ok 2%Z /\
  eval (a <- construct Release (of_array [None; Some 0]) ;;
        boxed_index_const Release a 1) ([PInt 1] : test_heap) = Ok (Some 0) /\
  eval (a <- construct Release (of_array [None; Some 0]) ;;
        r <- boxed_index Release a 1 ;; load r) ([PInt 1] : test_heap)
    = Ok (Some 0).
Proof.
  assert (Z.of_nat 1 <= INT_MAX)%Z as Hi by (unfold INT_MAX; lia).
  exact (boxed_array_elements Release [None; Some 0] 1 (Some 0)
           ([PInt 1] : test_heap) eq_refl Hi).
Defined.

Lemma boxed_index_assign_witness :
  exists h' : test_heap,
    (r <- boxed_index Debug (Some 1) (Z.of_nat 0) ;; assign r None)
      [PInt 1; PArray [Some 0; Some 0]] = Ok (tt, h') /\
    h' = <[1 := PArray (<[0 := None]> [Some 0; Some 0])]>
           [PInt 1; PArray [Some 0; Some 0]] /\
    boxed_index_const Debug (Some 1) (Z.of_nat 0) h' = Ok (None, h') /\
    (forall (j : nat) (w : boxed),
        j <> 0 -> [Some 0; Some 0] !! j = Some w -> (Z.of_nat j <= INT_MAX)%Z ->
        boxed_index_const Debug (Some 1) (Z.of_nat j) h' = Ok (w, h')) /\
    array_length (Some 1) h' = Ok (Z.of_nat (length [Some 0; Some 0]), h').
Proof.
  assert (0 < length [Some 0; Some 0]) as Hi by (simpl; lia).
  assert (Z.of_nat 0 <= INT_MAX)%Z as Hint by (unfold INT_MAX; lia).
  exact (boxed_index_assign Debug 1 [Some 0; Some 0] 0 None
           ([PInt 1; PArray [Some 0; Some 0]] : test_heap) eq_refl Hi Hint).
Defined.

Lemma unbox_assign_shared_witness :
  exists h' : test_heap,
    unbox_assign KInt (Some 0) 7%Z [PInt 1; PBool true] = Ok (tt, h') /\
    unbox KInt (Some 0) h' = Ok (7%Z, h') /\
    eval (c <- construct Debug (of_boxed (Some 0)) ;;
          unbox_assign KInt (Some 0) 7%Z ;; unbox KInt c)
         ([PInt 1; PBool true] : test_heap) = Ok 7%Z /\
    holds h' (Some 0) = Some KInt /\
    length h' = 2 /\
    (forall (k0 : kind) (b0 : boxed) (v0 : ctype k0),
        b0 <> Some 0 ->
        unbox k0 b0 ([PInt 1; PBool true] : test_heap)
          = Ok (v0, [PInt 1; PBool true]) ->
        unbox k0 b0 h' = Ok (v0, h')).
Proof.
  exact (unbox_assign_shared Debug KInt (Some 0) 1%Z 7%Z
           ([PInt 1; PBool true] : test_heap) eq_refl).
Defined.

Lemma boxed_wide_holds_int_witness :
  int_range (-2147483648) /\
  ((-2147483648 - 2147483648) mod 2 ^ 32 = 0)%Z /\
  (Release = Debug -> (-2147483648)%Z = 2147483648%Z).
Proof.
  assert (@of_ulong test_fn test_thunk 2147483648 = of_long 2147483648 /\
          long_range 2147483648 \/
          @of_ulong test_fn test_thunk 2147483648 = of_ulong 2147483648 /\
          ulong_range 2147483648) as Hx.
  { right. split; [reflexivity|]. unfold ulong_range. lia. }
  exact (boxed_wide_holds_int Release 2147483648 (of_ulong 2147483648)
           ([] : test_heap) (-2147483648)%Z Hx eq_refl).
Defined.

Lemma unbox_array_length_witness :
  eval (n <- array_length (Some 0) ;; ret (unbox_size_t n))
       ([PArray [None; None; None]] : test_heap) = Ok 3%Z /\
  size_t_range 3.
Proof.
  assert (Z.of_nat (length [@None nat; None; None]) < 2 ^ 63)%Z as Hlen
    by (simpl; lia).
  exact (unbox_array_length 0 [None; None; None]
           ([PArray [None; None; None]] : test_heap) eq_refl Hlen).
Defined.

Lemma boxed_r_independent_witness :
  eval (boxed_r_assign Debug (mk_boxed_r (Some 0)) (of_int 3) ;;
        boxed_r_read (mk_boxed_r (Some 1)))
       ([PBoxed None; PBoxed None] : test_heap) = Ok None /\
  eval (boxed_r_assign Debug (mk_boxed_r (Some 0)) (of_int 3) ;;
        boxed_r_read (mk_boxed_r (Some 0)))
       ([PBoxed None; PBoxed None] : test_heap) = Ok (Some 2).
Proof.
  assert (slot (mk_boxed_r (Some 0)) <> slot (mk_boxed_r (Some 1))) as Hne
    by (simpl; congruence).
  exact (boxed_r_independent Debug (mk_boxed_r (Some 0)) (mk_boxed_r (Some 1))
           (of_int 3) ([PBoxed None; PBoxed None] : test_heap)
           [PBoxed None; PBoxed None; PInt 3] None None (Some 2)
           eq_refl eq_refl Hne eq_refl).
Defined.

Lemma boxed_r_assign_twice_witness :
  eval (boxed_r_assign Debug (mk_boxed_r (Some 0)) (of_int 3) ;;
        boxed_r_assign Debug (mk_boxed_r (Some 0)) (of_bool true) ;;
        boxed_r_read (mk_boxed_r (Some 0))) ([PBoxed None] : test_heap)
  = eval (boxed_r_assign Debug (mk_boxed_r (Some 0)) (of_int 3) ;;
          construct Debug (of_bool true)) ([PBoxed None] : test_heap).
Proof.
  exact (boxed_r_assign_twice Debug (mk_boxed_r (Some 0)) (of_int 3) (of_bool true)
           ([PBoxed None] : test_heap) None eq_refl).
Defined.

Lemma boxed_r_call_assigned_witness :
  exists h' : list (payload unit unit),
    boxed_r_assign Release (mk_boxed_r (Some 0)) (of_fn tt) [PBoxed None]
      = Ok (mk_boxed_r (Some 0), h') /\
    (forall arg : boxed,
        boxed_r_call (C := id_callables) (mk_boxed_r (Some 0)) arg h'
        = apply_fn (Callables := id_callables) tt arg h') /\
    boxed_r_call_eff (C := id_callables) (mk_boxed_r (Some 0)) h' = UB.
Proof.
  exact (proj1 (boxed_r_call_assigned (C := id_callables) Release
                  (mk_boxed_r (Some 0)) tt tt None
                  ([PBoxed None] : list (payload unit unit)) eq_refl)).
Defined.


